(** * SimpleOS core: virtual filesystem and window manager

    A shallow embedding of the two stateful subsystems of the desktop shell:

    - [VirtualFileSystem] (class in [src/os/apps/SettingsApp.tsx], exported as
      [os.fs]): a flat [Map<string, FileMetadata>] keyed by full path;
    - [useWindowManager] (store in [src/os/window-manager.ts]): an array of
      window records and the counter [nextZIndex].

    Conventions of the embedding.
    - A JavaScript string is a [string]; only concatenation, comparison,
      [startsWith], [substring], [split]/[join] on the separator and the
      slash-trimming regular expression are used by the code.
    - A JavaScript [number] that holds a counter, a timestamp, a length or a
      pixel coordinate is a [Z].  The code only adds small integers to them, so
      the embedding is exact as long as the values stay below 2^53.
    - A [Map] is the list of its entries in insertion order.
    - [Date.now()] and the browser viewport are explicit arguments. *)

From Stdlib Require Import ZArith List String Ascii Bool Lia.
Import ListNotations.

Set Implicit Arguments.

(** ** JavaScript string primitives used by the filesystem *)

Module JsString.

Local Open Scope string_scope.

Definition is_slash (c : ascii) : bool := Ascii.eqb c "/"%char.

(** Truthiness of a string: the empty string is falsy. *)
Definition truthy (s : string) : bool :=
  match s with
  | EmptyString => false
  | String _ _ => true
  end.

(** [s.startsWith(p)] *)
Fixpoint startsWith (s p : string) {struct p} : bool :=
  match p with
  | EmptyString => true
  | String c p' =>
      match s with
      | EmptyString => false
      | String d s' => Ascii.eqb d c && startsWith s' p'
      end
  end.

(** [s.substring(n)] *)
Fixpoint substring_from (n : nat) (s : string) : string :=
  match n, s with
  | O, _ => s
  | S n', String _ s' => substring_from n' s'
  | S _, EmptyString => EmptyString
  end.

(** [s.includes("/")] *)
Fixpoint includes_slash (s : string) : bool :=
  match s with
  | EmptyString => false
  | String c s' => is_slash c || includes_slash s'
  end.

(** The match of [^\/+] at the start of the string, removed. *)
Fixpoint trim_leading (s : string) : string :=
  match s with
  | EmptyString => EmptyString
  | String c s' => if is_slash c then trim_leading s' else s
  end.

(** The match of [\/+$] at the end of the string, removed. *)
Fixpoint trim_trailing (s : string) : string :=
  match s with
  | EmptyString => EmptyString
  | String c s' =>
      let r := trim_trailing s' in
      if is_slash c && negb (truthy r) then EmptyString else String c r
  end.

(** [s.split("/")]: never the empty array. *)
Fixpoint split_slash (s : string) : list string :=
  match s with
  | EmptyString => [EmptyString]
  | String c s' =>
      if is_slash c then EmptyString :: split_slash s'
      else match split_slash s' with
           | h :: t => String c h :: t
           | [] => [String c EmptyString]
           end
  end.

(** [parts.join("/")] *)
Definition join_slash (parts : list string) : string := String.concat "/" parts.

(** [parts[parts.length - 1] = v] on a non-empty array. *)
Fixpoint set_last (v : string) (parts : list string) : list string :=
  match parts with
  | [] => []
  | [_] => [v]
  | h :: t => h :: set_last v t
  end.

End JsString.

(** ** [Map<string, V>]: entries in insertion order *)

Module JsMap.

Section Ops.
Variable V : Type.

Definition t : Type := list (string * V).

Definition map_get (k : string) (m : t) : option V :=
  match find (fun kv => String.eqb (fst kv) k) m with
  | Some kv => Some (snd kv)
  | None => None
  end.

Definition map_has (k : string) (m : t) : bool :=
  existsb (fun kv => String.eqb (fst kv) k) m.

(** [m.set(k, v)]: an existing key keeps its position, a new key is appended. *)
Fixpoint map_set (k : string) (v : V) (m : t) : t :=
  match m with
  | [] => [(k, v)]
  | kv :: r => if String.eqb (fst kv) k then (k, v) :: r else kv :: map_set k v r
  end.

Definition map_delete (k : string) (m : t) : t :=
  filter (fun kv => negb (String.eqb (fst kv) k)) m.

Definition keys (m : t) : list string := map fst m.
Definition values (m : t) : list V := map snd m.

(** No key occurs twice: what makes a list of entries a [Map]. *)
Fixpoint distinct_keys (m : t) : bool :=
  match m with
  | [] => true
  | kv :: r => negb (map_has (fst kv) r) && distinct_keys r
  end.

End Ops.

End JsMap.

(** ** The virtual filesystem *)

Module VFS.

Import JsString JsMap.
Local Open Scope string_scope.

Record FileMetadata : Type := mkFile {
  name : string;
  path : string;
  content : string;
  size : Z;
  modified : Z;
  created : Z;
  isFolder : bool
}.

Definition with_path (p : string) (f : FileMetadata) : FileMetadata :=
  mkFile (name f) p (content f) (size f) (modified f) (created f) (isFolder f).

Definition with_path_name (p n : string) (f : FileMetadata) : FileMetadata :=
  mkFile n p (content f) (size f) (modified f) (created f) (isFolder f).

(** The parsed content of the [localStorage] item. *)
Definition Store : Type := JsMap.t FileMetadata.

Definition normalizePath (path : string) : string :=
  if truthy path then trim_trailing (trim_leading path) else "".

(** The key computed by [writeFile] and [createFolder]. *)
Definition childPath (leaf folder : string) : string :=
  if truthy folder then normalizePath folder ++ "/" ++ leaf else leaf.

Definition writeFile (filename content folder : string) (now : Z) (files : Store) : Store :=
  let fullPath := childPath filename folder in
  let existing := map_get fullPath files in
  map_set fullPath
    {| name := filename;
       path := fullPath;
       content := content;
       size := Z.of_nat (String.length content);
       modified := now;
       created := match existing with
                  | Some e => if Z.eqb (created e) 0 then now else created e
                  | None => now
                  end;
       isFolder := false |}
    files.

(** A call either returns or throws an [Error] with a message. *)
Inductive completion (A : Type) : Type :=
| Return (a : A)
| Throw (message : string).

Arguments Return {A} a.
Arguments Throw {A} message.

Definition createFolder (folderName parentFolder : string) (now : Z) (files : Store)
  : completion Store :=
  let fullPath := childPath folderName parentFolder in
  if map_has fullPath files then Throw "Folder already exists"
  else Return
         (map_set fullPath
            {| name := folderName;
               path := fullPath;
               content := "";
               size := 0;
               modified := now;
               created := now;
               isFolder := true |}
            files).

(** The loop shared by [readFile] and [deleteFile] when the exact lookup
    misses: the first entry whose key matches up to normalisation. *)
Definition scan (path normalizedPath : string) (files : Store)
  : option (string * FileMetadata) :=
  find (fun kv =>
          String.eqb (normalizePath (fst kv)) normalizedPath
          || String.eqb (fst kv) normalizedPath
          || String.eqb (fst kv) path)
       files.

Definition readFile (path : string) (files : Store) : option string :=
  let normalizedPath := normalizePath path in
  let file :=
    match map_get normalizedPath files with
    | Some f => Some f
    | None => option_map snd (scan path normalizedPath files)
    end in
  match file with
  | Some f => if isFolder f then None else Some (content f)
  | None => None
  end.

(** The keys of the subtree rooted at [root]: the root and every key that
    starts with [root + "/"]. *)
Definition in_subtree (root k : string) : bool :=
  String.eqb k root || startsWith k (root ++ "/").

Definition deleteFile (path : string) (files : Store) : Store * bool :=
  let normalizedPath := normalizePath path in
  let hit :=
    if map_has normalizedPath files then
      match map_get normalizedPath files with
      | Some f => Some (normalizedPath, f)
      | None => None
      end
    else scan path normalizedPath files in
  match hit with
  | None => (files, false)
  | Some (actualPath, file) =>
      if negb (truthy actualPath) then (files, false)
      else if isFolder file then
        let toDelete := filter (in_subtree actualPath) (keys files) in
        (fold_left (fun m p => map_delete p m) toDelete files, true)
      else (map_delete actualPath files, true)
  end.

(** One planned re-keying of [moveFile] and [renameFile]. *)
Record Rekey : Type := mkRekey {
  oldPath : string;
  newPath : string;
  metadata : FileMetadata
}.

(** The destination key of an entry of the subtree rooted at [source]. *)
Definition rebase (source dest k : string) : string :=
  let relativePath :=
    if String.eqb k source then ""
    else substring_from (String.length source + 1) k in
  if truthy relativePath then dest ++ "/" ++ relativePath else dest.

Definition collect (source dest : string) (files : Store) : list Rekey :=
  flat_map (fun kv =>
              if in_subtree source (fst kv)
              then [mkRekey (fst kv) (rebase source dest (fst kv)) (snd kv)]
              else [])
           files.

(** The [newPath] of [moveFile]: the target folder and the source's [name]. *)
Definition moveDest (targetFolder : string) (sourceFile : FileMetadata) : string :=
  let normalizedTarget := normalizePath targetFolder in
  if truthy normalizedTarget
  then normalizedTarget ++ "/" ++ name sourceFile
  else name sourceFile.

(** The [newPath] of [renameFile]: the last segment replaced. *)
Definition renameDest (normalizedPath newName : string) : string :=
  join_slash (set_last newName (split_slash normalizedPath)).

Definition moveFile (sourcePath targetFolder : string) (files : Store) : Store * bool :=
  let normalizedSource := normalizePath sourcePath in
  match map_get normalizedSource files with
  | None => (files, false)
  | Some sourceFile =>
      let dest := moveDest targetFolder sourceFile in
      if map_has dest files then (files, false)
      else if isFolder sourceFile then
        let toMove := collect normalizedSource dest files in
        let removed := fold_left (fun m r => map_delete (oldPath r) m) toMove files in
        (fold_left
           (fun m r => map_set (newPath r) (with_path (newPath r) (metadata r)) m)
           toMove removed,
         true)
      else
        (map_set dest (with_path dest sourceFile) (map_delete normalizedSource files),
         true)
  end.

Definition renameFile (path newName : string) (files : Store) : Store * bool :=
  let normalizedPath := normalizePath path in
  match map_get normalizedPath files with
  | None => (files, false)
  | Some file =>
      let dest := renameDest normalizedPath newName in
      if map_has dest files then (files, false)
      else if isFolder file then
        let toRename := collect normalizedPath dest files in
        let removed := fold_left (fun m r => map_delete (oldPath r) m) toRename files in
        (fold_left
           (fun m r =>
              map_set (newPath r)
                (with_path_name (newPath r)
                   (if String.eqb (newPath r) dest then newName else name (metadata r))
                   (metadata r))
                m)
           toRename removed,
         true)
      else
        (map_set dest (with_path_name dest newName file)
           (map_delete normalizedPath files),
         true)
  end.

Definition exists_ (path : string) (files : Store) : bool :=
  map_has (normalizePath path) files.

Definition getAllFiles (files : Store) : list FileMetadata := values files.

(** [list(folder)]: the direct children, folders first, then by name.  The
    collation of [localeCompare] belongs to the host, so it is an argument;
    [Array.prototype.sort] is stable. *)
Definition is_direct_child (normalizedFolder k : string) : bool :=
  if negb (truthy normalizedFolder) then negb (includes_slash k)
  else
    let prefix := normalizedFolder ++ "/" in
    startsWith k prefix
    && negb (includes_slash (substring_from (String.length prefix) k)).

Section Listing.
Variable localeCompare : string -> string -> Z.

Definition list_order (a b : FileMetadata) : Z :=
  if isFolder a && negb (isFolder b) then (-1)%Z
  else if negb (isFolder a) && isFolder b then 1%Z
  else localeCompare (name a) (name b).

Fixpoint insert_sorted (a : FileMetadata) (l : list FileMetadata) : list FileMetadata :=
  match l with
  | [] => [a]
  | b :: r => if (list_order a b <=? 0)%Z then a :: b :: r else b :: insert_sorted a r
  end.

Definition stable_sort (l : list FileMetadata) : list FileMetadata :=
  fold_right insert_sorted [] l.

Definition list (folder : string) (files : Store) : list FileMetadata :=
  let normalizedFolder := normalizePath folder in
  stable_sort
    (values (filter (fun kv => is_direct_child normalizedFolder (fst kv)) files)).

End Listing.

(** [clear] removes the [localStorage] item; the next read sees an empty map. *)
Definition clear (_ : Store) : Store := [].

(** A leaf name: not empty, no separator. *)
Definition is_leaf (leaf : string) : bool := truthy leaf && negb (includes_slash leaf).

(** A parent folder argument that denotes the root by the empty string or a
    folder by a path with at least one component. *)
Definition is_parent (folder : string) : bool :=
  negb (truthy folder) || truthy (normalizePath folder).

(** *** The public interface as one dispatch

    A call of one of the operations of [os.fs] and what the caller sees of it:
    the returned value or the exception thrown, together with the map that
    [localStorage] holds afterwards.

    Each operation starts from [getStorage()], a fresh [Map] parsed from the
    stored item, and the five mutating ones end in [setStorage(files)], whose
    [localStorage.setItem] is not guarded: when the host refuses the new
    contents (a full quota) its exception reaches the caller and the stored
    item is the old one.  Whether the host takes a given map is its own
    business, so it is an argument, [accepts].  [getItem] and [removeItem] do
    not throw, and a stored item that does not parse is read as an empty
    map. *)
Inductive Call : Type :=
| CallWriteFile (filename content folder : string) (now : Z)
| CallCreateFolder (folderName parentFolder : string) (now : Z)
| CallReadFile (path : string)
| CallDeleteFile (path : string)
| CallMoveFile (sourcePath targetFolder : string)
| CallRenameFile (path newName : string)
| CallExists (path : string)
| CallList (folder : string) (localeCompare : string -> string -> Z)
| CallGetAllFiles
| CallClear.

Inductive Value : Type :=
| Undefined
| Boolean (b : bool)
| StringOrNull (s : option string)
| Entries (l : Datatypes.list FileMetadata).

(** What reaches the caller of a call that throws: an [Error] made by the
    class itself, or whatever [localStorage.setItem] threw. *)
Inductive Exception : Type :=
| ErrorObject (message : string)
| StorageException.

Inductive Outcome : Type :=
| Returned (v : Value)
| Threw (e : Exception).

(** [this.setStorage(files)] as the last statement before [return v], in a
    call that started from the stored map [stored]. *)
Definition setStorage (accepts : Store -> bool) (stored files : Store) (v : Value)
  : Store * Outcome :=
  if accepts files then (files, Returned v) else (stored, Threw StorageException).

Definition perform (accepts : Store -> bool) (c : Call) (files : Store)
  : Store * Outcome :=
  match c with
  | CallWriteFile filename content folder now =>
      setStorage accepts files (writeFile filename content folder now files) Undefined
  | CallCreateFolder folderName parentFolder now =>
      match createFolder folderName parentFolder now files with
      | Return files' => setStorage accepts files files' Undefined
      | Throw message => (files, Threw (ErrorObject message))
      end
  | CallReadFile path => (files, Returned (StringOrNull (readFile path files)))
  | CallDeleteFile path =>
      let r := deleteFile path files in
      if snd r then setStorage accepts files (fst r) (Boolean true)
      else (fst r, Returned (Boolean false))
  | CallMoveFile sourcePath targetFolder =>
      let r := moveFile sourcePath targetFolder files in
      if snd r then setStorage accepts files (fst r) (Boolean true)
      else (fst r, Returned (Boolean false))
  | CallRenameFile path newName =>
      let r := renameFile path newName files in
      if snd r then setStorage accepts files (fst r) (Boolean true)
      else (fst r, Returned (Boolean false))
  | CallExists path => (files, Returned (Boolean (exists_ path files)))
  | CallList folder localeCompare =>
      (files, Returned (Entries (list localeCompare folder files)))
  | CallGetAllFiles => (files, Returned (Entries (getAllFiles files)))
  | CallClear => (clear files, Returned Undefined)
  end.

End VFS.

(** ** The window manager *)

Module WM.

Local Open Scope Z_scope.

Section Records.
Variable ReactNode : Type.

Record WindowState : Type := mkWindow {
  id : string;
  title : string;
  component : ReactNode;
  x : Z;
  y : Z;
  width : Z;
  height : Z;
  minimized : bool;
  maximized : bool;
  zIndex : Z;
  prevX : option Z;
  prevY : option Z;
  prevWidth : option Z;
  prevHeight : option Z
}.

(** [Partial<Omit<WindowState, "id" | "title" | "component">>] *)
Record Options : Type := mkOptions {
  opt_x : option Z;
  opt_y : option Z;
  opt_width : option Z;
  opt_height : option Z;
  opt_minimized : option bool;
  opt_maximized : option bool;
  opt_zIndex : option Z;
  opt_prevX : option Z;
  opt_prevY : option Z;
  opt_prevWidth : option Z;
  opt_prevHeight : option Z
}.

Record WindowManagerState : Type := mkState {
  windows : list WindowState;
  nextZIndex : Z
}.

Definition initialState : WindowManagerState :=
  {| windows := []; nextZIndex := 1000 |}.

(** [a ?? b] *)
Definition nullish (A : Type) (a : option A) (b : A) : A :=
  match a with
  | Some v => v
  | None => b
  end.

(** Object spreads [{ ...w, field: value }]. *)
Definition with_minimized (b : bool) (w : WindowState) : WindowState :=
  mkWindow (id w) (title w) (component w) (x w) (y w) (width w) (height w)
    b (maximized w) (zIndex w) (prevX w) (prevY w) (prevWidth w) (prevHeight w).

Definition with_zIndex (z : Z) (w : WindowState) : WindowState :=
  mkWindow (id w) (title w) (component w) (x w) (y w) (width w) (height w)
    (minimized w) (maximized w) z (prevX w) (prevY w) (prevWidth w) (prevHeight w).

Definition with_position (nx ny : Z) (w : WindowState) : WindowState :=
  mkWindow (id w) (title w) (component w) nx ny (width w) (height w)
    (minimized w) (maximized w) (zIndex w) (prevX w) (prevY w) (prevWidth w) (prevHeight w).

Definition with_size (nw nh : Z) (w : WindowState) : WindowState :=
  mkWindow (id w) (title w) (component w) (x w) (y w) nw nh
    (minimized w) (maximized w) (zIndex w) (prevX w) (prevY w) (prevWidth w) (prevHeight w).

(** The two branches of [toggleMaximize]. *)
Definition unmaximized (w : WindowState) : WindowState :=
  mkWindow (id w) (title w) (component w)
    (nullish (prevX w) 100) (nullish (prevY w) 100)
    (nullish (prevWidth w) 600) (nullish (prevHeight w) 400)
    (minimized w) false (zIndex w) None None None None.

Definition maximized_to (viewportWidth viewportHeight : Z) (w : WindowState) : WindowState :=
  mkWindow (id w) (title w) (component w) 0 0 viewportWidth viewportHeight
    (minimized w) true (zIndex w)
    (Some (x w)) (Some (y w)) (Some (width w)) (Some (height w)).

Definition has_id (i : string) (w : WindowState) : bool := String.eqb (id w) i.

(** [windows.find((w) => w.id === id)] *)
Definition getWindow (i : string) (s : WindowManagerState) : option WindowState :=
  find (has_id i) (windows s).

Definition bringToFront (i : string) (s : WindowManagerState) : WindowManagerState :=
  let next := nextZIndex s in
  {| windows := map (fun w => if has_id i w then with_zIndex next w else w) (windows s);
     nextZIndex := next + 1 |}.

Definition restoreWindow (i : string) (s : WindowManagerState) : WindowManagerState :=
  let next := nextZIndex s in
  {| windows :=
       map (fun w => if has_id i w then with_zIndex next (with_minimized false w) else w)
         (windows s);
     nextZIndex := next + 1 |}.

Definition openWindow (i t : string) (c : ReactNode) (options : Options)
    (s : WindowManagerState) : WindowManagerState :=
  match getWindow i s with
  | Some existing =>
      if minimized existing then restoreWindow i s else bringToFront i s
  | None =>
      let next := nextZIndex s in
      let count := Z.of_nat (List.length (windows s)) in
      let newWindow :=
        {| id := i;
           title := t;
           component := c;
           x := nullish (opt_x options) (100 + count * 30);
           y := nullish (opt_y options) (100 + count * 30);
           width := nullish (opt_width options) 600;
           height := nullish (opt_height options) 400;
           minimized := false;
           maximized := false;
           zIndex := next;
           prevX := None;
           prevY := None;
           prevWidth := None;
           prevHeight := None |} in
      {| windows := windows s ++ [newWindow]; nextZIndex := next + 1 |}
  end.

Definition closeWindow (i : string) (s : WindowManagerState) : WindowManagerState :=
  {| windows := filter (fun w => negb (has_id i w)) (windows s);
     nextZIndex := nextZIndex s |}.

Definition minimizeWindow (i : string) (s : WindowManagerState) : WindowManagerState :=
  {| windows := map (fun w => if has_id i w then with_minimized true w else w) (windows s);
     nextZIndex := nextZIndex s |}.

(** [viewport] is [Some (innerWidth, innerHeight)] in a browser and [None]
    where [window] is undefined. *)
Definition toggleMaximize (viewport : option (Z * Z)) (i : string)
    (s : WindowManagerState) : WindowManagerState :=
  match getWindow i s with
  | None => s
  | Some _ =>
      let viewportWidth := match viewport with Some v => fst v | None => 1920 end in
      let viewportHeight := match viewport with Some v => snd v | None => 1080 end in
      {| windows :=
           map (fun w =>
                  if negb (has_id i w) then w
                  else if maximized w then unmaximized w
                  else maximized_to viewportWidth viewportHeight w)
             (windows s);
         nextZIndex := nextZIndex s |}
  end.

Definition updatePosition (i : string) (nx ny : Z) (s : WindowManagerState)
  : WindowManagerState :=
  {| windows := map (fun w => if has_id i w then with_position nx ny w else w) (windows s);
     nextZIndex := nextZIndex s |}.

Definition updateSize (i : string) (nw nh : Z) (s : WindowManagerState)
  : WindowManagerState :=
  {| windows := map (fun w => if has_id i w then with_size nw nh w else w) (windows s);
     nextZIndex := nextZIndex s |}.

(** *** The states the public operations can produce *)

Inductive Action : Type :=
| Open (i t : string) (c : ReactNode) (options : Options)
| Close (i : string)
| Minimize (i : string)
| Restore (i : string)
| ToggleMaximize (viewport : option (Z * Z)) (i : string)
| BringToFront (i : string)
| UpdatePosition (i : string) (nx ny : Z)
| UpdateSize (i : string) (nw nh : Z).

Definition dispatch (a : Action) (s : WindowManagerState) : WindowManagerState :=
  match a with
  | Open i t c options => openWindow i t c options s
  | Close i => closeWindow i s
  | Minimize i => minimizeWindow i s
  | Restore i => restoreWindow i s
  | ToggleMaximize viewport i => toggleMaximize viewport i s
  | BringToFront i => bringToFront i s
  | UpdatePosition i nx ny => updatePosition i nx ny s
  | UpdateSize i nw nh => updateSize i nw nh s
  end.

Inductive reachable : WindowManagerState -> Prop :=
| reachable_initial : reachable initialState
| reachable_dispatch : forall a s, reachable s -> reachable (dispatch a s).

(** *** Stacking invariant

    Ids are unique, z-indices are unique, and every z-index in use was handed
    out by the counter before. *)
Definition below_counter (s : WindowManagerState) : Prop :=
  Forall (fun w => zIndex w < nextZIndex s) (windows s).

Definition well_stacked (s : WindowManagerState) : Prop :=
  NoDup (map id (windows s))
  /\ NoDup (map zIndex (windows s))
  /\ below_counter s.

End Records.

Arguments initialState : clear implicits.
Arguments id {ReactNode} w.
Arguments title {ReactNode} w.
Arguments component {ReactNode} w.
Arguments x {ReactNode} w.
Arguments y {ReactNode} w.
Arguments width {ReactNode} w.
Arguments height {ReactNode} w.
Arguments minimized {ReactNode} w.
Arguments maximized {ReactNode} w.
Arguments zIndex {ReactNode} w.
Arguments windows {ReactNode} w.
Arguments nextZIndex {ReactNode} w.

End WM.

(** ** Concrete states used as test points *)

Module Scenario.

Import WM.
Local Open Scope string_scope.

(** [createFolder] under [try { ... } catch { }], as the applications call it. *)
Definition mkdir (folderName parentFolder : string) (now : Z) (files : VFS.Store)
  : VFS.Store :=
  match VFS.createFolder folderName parentFolder now files with
  | VFS.Return files' => files'
  | VFS.Throw _ => files
  end.

(** docs/, docs/a.txt, docs/sub/, docs/sub/b.txt, top.txt, archive/ *)
Definition sample_store : VFS.Store :=
  mkdir "archive" "" 6
    (VFS.writeFile "top.txt" "x" "" 5
       (VFS.writeFile "b.txt" "yo" "docs/sub" 4
          (mkdir "sub" "docs" 3
             (VFS.writeFile "a.txt" "hi" "docs" 2
                (mkdir "docs" "" 1 []))))).

Definition no_options : Options :=
  mkOptions None None None None None None None None None None None.

(** [openWindow("w1", ...)] then [openWindow("w2", ...)] on a fresh store. *)
Definition two_windows : WindowManagerState unit :=
  openWindow "w2" "Second" tt no_options
    (openWindow "w1" "First" tt no_options (initialState unit)).

(** The same, after [toggleMaximize("w1")] in a 1280 x 720 viewport. *)
Definition w1_maximized : WindowManagerState unit :=
  toggleMaximize (Some (1280, 720)%Z) "w1" two_windows.

(** The same as [two_windows], after [minimizeWindow("w1")]. *)
Definition w1_minimized : WindowManagerState unit :=
  minimizeWindow "w1" two_windows.

End Scenario.

(** * Properties of the window manager *)

Module WindowManagerFacts.

Import WM.
Local Open Scope Z_scope.

Section Facts.
Context {R : Type}.

Implicit Types (s : WindowManagerState R) (w : WindowState R) (ws : list (WindowState R)).

(** Rewriting one record in place, as every [windows.map] of the store does. *)
Definition touch (i : string) (f : WindowState R -> WindowState R) ws :=
  map (fun w => if has_id i w then f w else w) ws.

Lemma has_id_true i w : has_id i w = true <-> id w = i.
Proof. unfold has_id. apply String.eqb_eq. Qed.

Lemma has_id_false i w : has_id i w = false <-> id w <> i.
Proof. unfold has_id. apply String.eqb_neq. Qed.

Lemma find_has_id i ws w :
  find (has_id i) ws = Some w -> In w ws /\ id w = i.
Proof.
  intros H. apply find_some in H. destruct H as [Hin Hid].
  split; [exact Hin | now apply has_id_true].
Qed.

Lemma touch_ids i f ws :
  (forall w, id (f w) = id w) -> map id (touch i f ws) = map id ws.
Proof.
  intros Hf. unfold touch. induction ws as [|a ws IH]; simpl; [reflexivity|].
  rewrite IH. destruct (has_id i a); [rewrite Hf|]; reflexivity.
Qed.

Lemma touch_zIndex i f ws :
  (forall w, zIndex (f w) = zIndex w) -> map zIndex (touch i f ws) = map zIndex ws.
Proof.
  intros Hf. unfold touch. induction ws as [|a ws IH]; simpl; [reflexivity|].
  rewrite IH. destruct (has_id i a); [rewrite Hf|]; reflexivity.
Qed.

Lemma touch_absent i f ws : ~ In i (map id ws) -> touch i f ws = ws.
Proof.
  unfold touch. induction ws as [|a ws IH]; simpl; intros Hn; [reflexivity|].
  destruct (has_id i a) eqn:E.
  - apply has_id_true in E. tauto.
  - rewrite IH; tauto.
Qed.

Lemma touch_find i f ws w :
  (forall w, id (f w) = id w) ->
  find (has_id i) ws = Some w ->
  find (has_id i) (touch i f ws) = Some (f w).
Proof.
  intros Hf. unfold touch. induction ws as [|a ws IH]; simpl; [discriminate|].
  destruct (has_id i a) eqn:E.
  - intros [= ->]. simpl.
    assert (has_id i (f w) = true) as ->; [|reflexivity].
    apply has_id_true. rewrite Hf. now apply has_id_true.
  - intros H. simpl. rewrite E. auto.
Qed.

Lemma touch_find_other i j f ws :
  (forall w, id (f w) = id w) ->
  j <> i ->
  find (has_id j) (touch i f ws) = find (has_id j) ws.
Proof.
  intros Hf Hji. unfold touch. induction ws as [|a ws IH]; simpl; [reflexivity|].
  destruct (has_id i a) eqn:E; simpl.
  - apply has_id_true in E.
    assert (has_id j (f a) = false) as -> by (apply has_id_false; rewrite Hf; congruence).
    assert (has_id j a = false) as -> by (apply has_id_false; congruence).
    exact IH.
  - rewrite IH. reflexivity.
Qed.

Lemma touch_In i f ws o :
  In o (touch i f ws) -> (In o ws /\ id o <> i) \/ (exists w, In w ws /\ id w = i /\ o = f w).
Proof.
  unfold touch. intros H. apply in_map_iff in H. destruct H as [a [Ha Hin]].
  destruct (has_id i a) eqn:E.
  - right. exists a. apply has_id_true in E. auto.
  - left. subst o. apply has_id_false in E. auto.
Qed.

Lemma unique_by_id ws a b :
  NoDup (map id ws) -> In a ws -> In b ws -> id a = id b -> a = b.
Proof.
  induction ws as [|c ws IH]; simpl; [tauto|].
  intros Hnd [Ha|Ha] [Hb|Hb] Hid; inversion Hnd as [|? ? Hnotin Hnd']; subst.
  - reflexivity.
  - exfalso. apply Hnotin. rewrite Hid. now apply in_map.
  - exfalso. apply Hnotin. rewrite <- Hid. now apply in_map.
  - auto.
Qed.

(** Handing the counter's value to the record [i] keeps z-indices distinct. *)
Lemma raise_distinct i f ws next :
  (forall w, id (f w) = id w) ->
  (forall w, zIndex (f w) = next) ->
  NoDup (map id ws) ->
  NoDup (map zIndex ws) ->
  Forall (fun w => zIndex w < next) ws ->
  NoDup (map zIndex (touch i f ws)).
Proof.
  intros Hid Hz. induction ws as [|a ws IH]; simpl; intros Hni Hnz Hlt.
  - constructor.
  - inversion Hni as [|? ? Hai Hni']; inversion Hnz as [|? ? Haz Hnz'];
      inversion Hlt as [|? ? Ha Hlt']; subst.
    destruct (has_id i a) eqn:E.
    + apply has_id_true in E. subst i.
      fold (touch (id a) f ws). rewrite touch_absent by exact Hai.
      constructor; [|exact Hnz'].
      rewrite Hz. intros Hin. apply in_map_iff in Hin.
      destruct Hin as [b [Hb Hin]]. rewrite Forall_forall in Hlt'.
      specialize (Hlt' b Hin). lia.
    + constructor; [|now apply IH].
      fold (touch i f ws). intros Hin. apply in_map_iff in Hin.
      destruct Hin as [b [Hb Hin]].
      apply touch_In in Hin. destruct Hin as [[Hin _]|[c [Hc [_ ->]]]].
      * apply Haz. rewrite <- Hb. now apply in_map.
      * rewrite Hz in Hb. lia.
Qed.

Lemma raise_below i f ws next :
  (forall w, zIndex (f w) = next) ->
  Forall (fun w => zIndex w < next) ws ->
  Forall (fun w => zIndex w < next + 1) (touch i f ws).
Proof.
  intros Hz Hlt. unfold touch. rewrite Forall_forall in *.
  intros o Hin. apply in_map_iff in Hin. destruct Hin as [a [<- Hin]].
  destruct (has_id i a); [rewrite Hz; lia|].
  specialize (Hlt a Hin). lia.
Qed.

Lemma raise_well_stacked i f s :
  (forall w, id (f w) = id w) ->
  (forall w, zIndex (f w) = nextZIndex s) ->
  well_stacked s ->
  well_stacked {| windows := touch i f (windows s); nextZIndex := nextZIndex s + 1 |}.
Proof.
  intros Hid Hz (Hni & Hnz & Hlt). unfold well_stacked, below_counter in *. simpl.
  split; [rewrite touch_ids by exact Hid; exact Hni|].
  split; [now apply raise_distinct with (next := nextZIndex s)|].
  now apply raise_below.
Qed.

(** Rewriting fields other than the id and the z-index keeps the invariant. *)
Lemma touch_well_stacked i f s :
  (forall w, id (f w) = id w) ->
  (forall w, zIndex (f w) = zIndex w) ->
  well_stacked s ->
  well_stacked {| windows := touch i f (windows s); nextZIndex := nextZIndex s |}.
Proof.
  intros Hid Hz (Hni & Hnz & Hlt). unfold well_stacked, below_counter in *. simpl.
  split; [rewrite touch_ids by exact Hid; exact Hni|].
  split; [rewrite touch_zIndex by exact Hz; exact Hnz|].
  unfold touch. rewrite Forall_forall in *.
  intros o Hin. apply in_map_iff in Hin. destruct Hin as [a [<- Hin]].
  specialize (Hlt a Hin). destruct (has_id i a); [rewrite Hz|]; exact Hlt.
Qed.

Lemma NoDup_map_filter (A B : Type) (g : A -> B) (p : A -> bool) (l : list A) :
  NoDup (map g l) -> NoDup (map g (filter p l)).
Proof.
  induction l as [|a l IH]; simpl; intros Hnd; [constructor|].
  inversion Hnd as [|? ? Hnotin Hnd']; subst.
  destruct (p a); simpl; [|auto].
  constructor; [|auto].
  intros Hin. apply Hnotin. apply in_map_iff in Hin.
  destruct Hin as [b [Hb Hin]]. apply filter_In in Hin.
  rewrite <- Hb. apply in_map. tauto.
Qed.

Lemma bringToFront_well_stacked i s : well_stacked s -> well_stacked (bringToFront i s).
Proof. intros H. apply (raise_well_stacked i (with_zIndex (nextZIndex s))); auto. Qed.

Lemma restoreWindow_well_stacked i s : well_stacked s -> well_stacked (restoreWindow i s).
Proof.
  intros H.
  apply (raise_well_stacked i (fun w => with_zIndex (nextZIndex s) (with_minimized false w)));
    auto.
Qed.

Lemma getWindow_none_fresh i s : getWindow i s = None -> ~ In i (map id (windows s)).
Proof.
  unfold getWindow. intros Hnone Hin. apply in_map_iff in Hin.
  destruct Hin as [w [Hid Hin]].
  apply (find_none _ _ Hnone) in Hin. apply has_id_true in Hid. congruence.
Qed.

Lemma openWindow_well_stacked i t (c : R) o s :
  well_stacked s -> well_stacked (openWindow i t c o s).
Proof.
  intros H. unfold openWindow. destruct (getWindow i s) as [e|] eqn:E.
  - destruct (minimized e);
      [now apply restoreWindow_well_stacked | now apply bringToFront_well_stacked].
  - destruct H as (Hni & Hnz & Hlt). unfold well_stacked, below_counter in *. simpl.
    rewrite !map_app. simpl. rewrite Forall_forall in Hlt.
    repeat split.
    + apply NoDup_app; [exact Hni | repeat constructor; simpl; tauto |].
      intros a Ha [<-|[]]. now apply getWindow_none_fresh in E.
    + apply NoDup_app; [exact Hnz | repeat constructor; simpl; tauto |].
      intros a Ha [<-|[]]. apply in_map_iff in Ha. destruct Ha as [b [Hb Hin]].
      specialize (Hlt b Hin). lia.
    + apply Forall_app. split.
      * apply Forall_forall. intros b Hin. specialize (Hlt b Hin). lia.
      * repeat constructor. simpl. lia.
Qed.

Lemma closeWindow_well_stacked i s : well_stacked s -> well_stacked (closeWindow i s).
Proof.
  intros (Hni & Hnz & Hlt). unfold well_stacked, below_counter in *. simpl.
  repeat split; try now apply NoDup_map_filter.
  rewrite Forall_forall in *. intros b Hin. apply filter_In in Hin. apply Hlt. tauto.
Qed.

Lemma toggleMaximize_well_stacked v i s :
  well_stacked s -> well_stacked (toggleMaximize v i s).
Proof.
  intros H. unfold toggleMaximize. destruct (getWindow i s) as [e|]; [|exact H].
  set (vw := match v with Some p => fst p | None => 1920 end).
  set (vh := match v with Some p => snd p | None => 1080 end).
  replace (map _ (windows s))
    with (touch i (fun w => if maximized w then unmaximized w else maximized_to vw vh w)
            (windows s)).
  - apply touch_well_stacked; [| |exact H]; intros w; destruct (maximized w); reflexivity.
  - unfold touch. apply map_ext. intros a. destruct (has_id i a); reflexivity.
Qed.

Lemma dispatch_well_stacked a s : well_stacked s -> well_stacked (dispatch a s).
Proof.
  intros H. destruct a; simpl.
  - now apply openWindow_well_stacked.
  - now apply closeWindow_well_stacked.
  - now apply (touch_well_stacked i (with_minimized true)).
  - now apply restoreWindow_well_stacked.
  - now apply toggleMaximize_well_stacked.
  - now apply bringToFront_well_stacked.
  - now apply (touch_well_stacked i (with_position nx ny)).
  - now apply (touch_well_stacked i (with_size nw nh)).
Qed.

Lemma reachable_well_stacked s : reachable s -> well_stacked s.
Proof.
  induction 1 as [|a s _ IH].
  - unfold well_stacked, below_counter. simpl. repeat split; constructor.
  - now apply dispatch_well_stacked.
Qed.

(** The record rewrite performed by [toggleMaximize] on its target. *)
Definition toggled (v : option (Z * Z)) w : WindowState R :=
  if maximized w then unmaximized w
  else maximized_to (match v with Some p => fst p | None => 1920 end)
                    (match v with Some p => snd p | None => 1080 end) w.

Lemma toggled_id v w : id (toggled v w) = id w.
Proof. unfold toggled. destruct (maximized w); reflexivity. Qed.

Lemma toggleMaximize_present v i s w :
  getWindow i s = Some w ->
  toggleMaximize v i s
  = {| windows := touch i (toggled v) (windows s); nextZIndex := nextZIndex s |}.
Proof.
  intros H. unfold toggleMaximize. rewrite H. f_equal.
  unfold touch, toggled. apply map_ext. intros a. destruct (has_id i a); reflexivity.
Qed.

Lemma state_eta s : {| windows := windows s; nextZIndex := nextZIndex s |} = s.
Proof. destruct s; reflexivity. Qed.

(** *** Claims *)

(** C3. In every state reachable from the initial one by the public
    operations, no two open windows share a z-index; and [bringToFront] on an
    open window gives it a z-index strictly above that of every other open
    window. *)
Theorem reachable_zIndex_distinct_front_on_top s :
  reachable s ->
  NoDup (map zIndex (windows s))
  /\ forall i w,
       getWindow i s = Some w ->
       exists w',
         getWindow i (bringToFront i s) = Some w'
         /\ forall o, In o (windows (bringToFront i s)) -> o <> w' -> zIndex o < zIndex w'.
Proof.
  intros Hr. apply reachable_well_stacked in Hr. destruct Hr as (Hni & Hnz & Hlt).
  split; [exact Hnz|].
  intros i w Hw. exists (with_zIndex (nextZIndex s) w). split.
  - unfold getWindow, bringToFront. simpl.
    now apply (touch_find i (with_zIndex (nextZIndex s))).
  - intros o Hin Hne. unfold bringToFront in Hin. simpl in Hin.
    apply (touch_In i (with_zIndex (nextZIndex s))) in Hin.
    destruct Hin as [[Hin _]|[c [Hc [Hid ->]]]].
    + unfold below_counter in Hlt. rewrite Forall_forall in Hlt. now apply Hlt.
    + exfalso. apply Hne. f_equal.
      apply find_has_id in Hw. destruct Hw as [Hw Hwi].
      apply (unique_by_id (windows s)); congruence.
Qed.

(** A rewrite of the records with id [i] gives the same array exactly when it
    changes none of them. *)
Lemma touch_fixed i f ws :
  touch i f ws = ws <-> forall w, In w ws -> id w = i -> f w = w.
Proof.
  unfold touch. induction ws as [|a ws IH]; simpl.
  - split; [intros _ w [] | reflexivity].
  - split.
    + intros [= Ha Hws] w [<-|Hin] Hid.
      * apply has_id_true in Hid. now rewrite Hid in Ha.
      * now apply IH.
    + intros Hall. f_equal.
      * destruct (has_id i a) eqn:E; [|reflexivity].
        apply Hall; [now left | now apply has_id_true].
      * apply IH. intros w Hin. apply Hall. now right.
Qed.

Lemma same_windows s l :
  {| windows := l; nextZIndex := nextZIndex s |} = s <-> l = windows s.
Proof.
  destruct s as [ws n]. simpl. split; [intros [= ->]; reflexivity | intros ->; reflexivity].
Qed.

Lemma with_position_fixed nx ny w : with_position nx ny w = w <-> x w = nx /\ y w = ny.
Proof.
  destruct w; unfold with_position; simpl. split.
  - intros [= -> ->]. auto.
  - intros [-> ->]. reflexivity.
Qed.

Lemma with_size_fixed nw nh w : with_size nw nh w = w <-> width w = nw /\ height w = nh.
Proof.
  destruct w; unfold with_size; simpl. split.
  - intros [= -> ->]. auto.
  - intros [-> ->]. reflexivity.
Qed.

(** C4, as the code has it.  [updatePosition] and [updateSize] do not look at
    [maximized]: they overwrite the position, respectively the size, of the
    record with the given id and leave its other fields, the other records and
    the counter alone.  The state is unchanged when the id is absent, and
    otherwise exactly when every record with the id already has the given
    position, respectively size. *)
Theorem update_geometry_ignores_maximized s i (nx ny nw nh : Z) :
  (forall w, getWindow i s = Some w ->
     getWindow i (updatePosition i nx ny s) = Some (with_position nx ny w)
     /\ getWindow i (updateSize i nw nh s) = Some (with_size nw nh w))
  /\ (forall j, j <> i ->
        getWindow j (updatePosition i nx ny s) = getWindow j s
        /\ getWindow j (updateSize i nw nh s) = getWindow j s)
  /\ nextZIndex (updatePosition i nx ny s) = nextZIndex s
  /\ nextZIndex (updateSize i nw nh s) = nextZIndex s
  /\ (getWindow i s = None ->
        updatePosition i nx ny s = s /\ updateSize i nw nh s = s)
  /\ (updatePosition i nx ny s = s <->
      forall w, In w (windows s) -> id w = i -> x w = nx /\ y w = ny)
  /\ (updateSize i nw nh s = s <->
      forall w, In w (windows s) -> id w = i -> width w = nw /\ height w = nh).
Proof.
  split; [|split; [|split; [|split; [|split; [|split]]]]].
  - intros w Hw. split.
    + now apply (touch_find i (with_position nx ny)).
    + now apply (touch_find i (with_size nw nh)).
  - intros j Hj. split.
    + now apply (touch_find_other (with_position nx ny)).
    + now apply (touch_find_other (with_size nw nh)).
  - reflexivity.
  - reflexivity.
  - intros Hnone. split.
    + unfold updatePosition. fold (touch i (with_position nx ny) (windows s)).
      rewrite touch_absent by now apply getWindow_none_fresh.
      apply state_eta.
    + unfold updateSize. fold (touch i (with_size nw nh) (windows s)).
      rewrite touch_absent by now apply getWindow_none_fresh.
      apply state_eta.
  - unfold updatePosition. fold (touch i (with_position nx ny) (windows s)).
    rewrite same_windows, touch_fixed.
    split; intros H w Hin Hid; apply with_position_fixed; now apply H.
  - unfold updateSize. fold (touch i (with_size nw nh) (windows s)).
    rewrite same_windows, touch_fixed.
    split; intros H w Hin Hid; apply with_size_fixed; now apply H.
Qed.

(** C6. Two [toggleMaximize] calls in a row on an open, unmaximized window
    give back its [x], [y], [width] and [height], with [maximized = false] and
    the saved geometry cleared.  The viewport of either call does not matter. *)
Theorem toggleMaximize_twice_restores v1 v2 i s w :
  getWindow i s = Some w ->
  maximized w = false ->
  exists w'',
    getWindow i (toggleMaximize v2 i (toggleMaximize v1 i s)) = Some w''
    /\ x w'' = x w /\ y w'' = y w /\ width w'' = width w /\ height w'' = height w
    /\ maximized w'' = false
    /\ prevX w'' = None /\ prevY w'' = None
    /\ prevWidth w'' = None /\ prevHeight w'' = None.
Proof.
  intros Hw Hmax.
  assert (H1 : getWindow i (toggleMaximize v1 i s) = Some (toggled v1 w)).
  { rewrite (toggleMaximize_present v1 i s Hw). unfold getWindow. simpl.
    apply touch_find; [apply toggled_id | exact Hw]. }
  exists (toggled v2 (toggled v1 w)). split.
  - rewrite (toggleMaximize_present v2 i _ H1). unfold getWindow. simpl.
    apply touch_find; [apply toggled_id | exact H1].
  - unfold toggled. rewrite Hmax. simpl. repeat split.
Qed.

(** C8. [openWindow] on an id that already has a record is [restoreWindow]
    when the record is minimized and [bringToFront] otherwise.  The list of
    ids is the same afterwards, the record keeps every field but [minimized]
    and [zIndex], and the title, component and options supplied do not
    influence the result. *)
Theorem openWindow_existing i t (c : R) o s w :
  getWindow i s = Some w ->
  openWindow i t c o s = (if minimized w then restoreWindow i s else bringToFront i s)
  /\ map id (windows (openWindow i t c o s)) = map id (windows s)
  /\ getWindow i (openWindow i t c o s)
     = Some (with_zIndex (nextZIndex s) (with_minimized false w))
  /\ forall t' c' o', openWindow i t' c' o' s = openWindow i t c o s.
Proof.
  intros Hw.
  assert (Hopen : forall t0 (c0 : R) o0,
             openWindow i t0 c0 o0 s
             = if minimized w then restoreWindow i s else bringToFront i s).
  { intros. unfold openWindow. rewrite Hw. reflexivity. }
  split; [apply Hopen|]. rewrite Hopen.
  split; [|split; [|intros; apply Hopen]].
  - destruct (minimized w); simpl.
    + now apply (touch_ids i (fun a => with_zIndex (nextZIndex s) (with_minimized false a))).
    + now apply (touch_ids i (with_zIndex (nextZIndex s))).
  - destruct (minimized w) eqn:Hmin; unfold getWindow; simpl.
    + now apply (touch_find i (fun a => with_zIndex (nextZIndex s) (with_minimized false a))).
    + replace (with_minimized false w) with w
        by (destruct w; simpl in *; subst; reflexivity).
      now apply (touch_find i (with_zIndex (nextZIndex s))).
Qed.

(** C10. [toggleMaximize] on an open window leaves the counter, the
    window's own z-index (and id, title, component, minimized flag) and every
    other window's record as they were: maximizing does not raise a window. *)
Theorem toggleMaximize_frame v i s w :
  getWindow i s = Some w ->
  nextZIndex (toggleMaximize v i s) = nextZIndex s
  /\ map id (windows (toggleMaximize v i s)) = map id (windows s)
  /\ map zIndex (windows (toggleMaximize v i s)) = map zIndex (windows s)
  /\ (exists w',
        getWindow i (toggleMaximize v i s) = Some w'
        /\ zIndex w' = zIndex w /\ id w' = id w /\ title w' = title w
        /\ component w' = component w /\ minimized w' = minimized w
        /\ maximized w' = negb (maximized w))
  /\ forall j, j <> i -> getWindow j (toggleMaximize v i s) = getWindow j s.
Proof.
  intros Hw. rewrite (toggleMaximize_present v i s Hw). simpl.
  split; [reflexivity|].
  split; [apply touch_ids, toggled_id|].
  split; [apply touch_zIndex; intros a; unfold toggled; destruct (maximized a); reflexivity|].
  split.
  - exists (toggled v w). split.
    + unfold getWindow. simpl. apply touch_find; [apply toggled_id | exact Hw].
    + unfold toggled. destruct (maximized w); simpl; repeat split.
  - intros j Hj. unfold getWindow. simpl.
    apply touch_find_other; [apply toggled_id | exact Hj].
Qed.

End Facts.

(** *** Test points *)

Import Scenario.
Local Open Scope string_scope.

Lemma reachable_zIndex_distinct_front_on_top_witness :
  reachable two_windows
  /\ NoDup (map zIndex (windows two_windows))
  /\ forall i w,
       getWindow i two_windows = Some w ->
       exists w',
         getWindow i (bringToFront i two_windows) = Some w'
         /\ forall o, In o (windows (bringToFront i two_windows)) ->
                      o <> w' -> zIndex o < zIndex w'.
Proof.
  assert (Hr : reachable two_windows).
  { unfold two_windows.
    apply (reachable_dispatch (Open "w2" "Second" tt no_options)).
    apply (reachable_dispatch (Open "w1" "First" tt no_options)).
    apply reachable_initial. }
  split; [exact Hr|].
  exact (reachable_zIndex_distinct_front_on_top Hr).
Defined.

(** C4 as stated fails: on the maximized window ["w1"], [updatePosition] and
    [updateSize] overwrite the geometry. *)
Lemma update_geometry_maximized_counterexample :
  (exists w, getWindow "w1" w1_maximized = Some w
             /\ maximized w = true
             /\ (x w, y w, width w, height w) = (0, 0, 1280, 720))
  /\ (exists w', getWindow "w1" (updatePosition "w1" 40 50 w1_maximized) = Some w'
                 /\ maximized w' = true /\ (x w', y w') = (40, 50))
  /\ (exists w', getWindow "w1" (updateSize "w1" 300 200 w1_maximized) = Some w'
                 /\ maximized w' = true /\ (width w', height w') = (300, 200))
  /\ updatePosition "w1" 40 50 w1_maximized <> w1_maximized
  /\ updateSize "w1" 300 200 w1_maximized <> w1_maximized.
Proof.
  repeat split.
  - eexists. split; [reflexivity|]. split; reflexivity.
  - eexists. split; [reflexivity|]. split; reflexivity.
  - eexists. split; [reflexivity|]. split; reflexivity.
  - intros H. apply (f_equal (fun s => option_map x (getWindow "w1" s))) in H.
    vm_compute in H. discriminate.
  - intros H. apply (f_equal (fun s => option_map width (getWindow "w1" s))) in H.
    vm_compute in H. discriminate.
Qed.

Lemma update_geometry_ignores_maximized_witness :
  getWindow "w1" (updatePosition "w1" 40 50 w1_maximized)
  = Some (mkWindow "w1" "First" tt 40 50 1280 720 false true 1000
            (Some 100) (Some 100) (Some 600) (Some 400))
  /\ getWindow "w1" (updateSize "w1" 300 200 w1_maximized)
     = Some (mkWindow "w1" "First" tt 0 0 300 200 false true 1000
               (Some 100) (Some 100) (Some 600) (Some 400))
  /\ getWindow "w2" (updatePosition "w1" 40 50 w1_maximized) = getWindow "w2" w1_maximized
  /\ updatePosition "gone" 40 50 w1_maximized = w1_maximized
  /\ updatePosition "w1" 0 0 w1_maximized = w1_maximized
  /\ updatePosition "w1" 40 50 w1_maximized <> w1_maximized.
Proof.
  destruct (@update_geometry_ignores_maximized unit w1_maximized "w1" 40 50 300 200)
    as (Hset & Hother & _ & _ & _ & Hmoved & _).
  destruct (Hset _ eq_refl) as [Hpos Hsize].
  destruct (Hother "w2" ltac:(discriminate)) as [Hpos2 _].
  destruct (@update_geometry_ignores_maximized unit w1_maximized "gone" 40 50 300 200)
    as (_ & _ & _ & _ & Habsent & _).
  destruct (Habsent eq_refl) as [Hsame _].
  destruct (@update_geometry_ignores_maximized unit w1_maximized "w1" 0 0 300 200)
    as (_ & _ & _ & _ & _ & Hstill & _).
  split; [exact Hpos|]. split; [exact Hsize|]. split; [exact Hpos2|].
  split; [exact Hsame|]. split.
  - apply (proj2 Hstill).
    intros w [<-|[<-|[]]] Hid; [split; reflexivity | discriminate Hid].
  - intros Heq.
    destruct (proj1 Hmoved Heq (mkWindow "w1" "First" tt 0 0 1280 720 false true 1000
                     (Some 100) (Some 100) (Some 600) (Some 400))
                (or_introl eq_refl) eq_refl) as [Hx _].
    discriminate Hx.
Defined.

Lemma toggleMaximize_twice_restores_witness :
  exists w'',
    getWindow "w1"
      (toggleMaximize None "w1" (toggleMaximize (Some (1280, 720)) "w1" two_windows))
    = Some w''
    /\ x w'' = 100 /\ y w'' = 100 /\ width w'' = 600 /\ height w'' = 400
    /\ maximized w'' = false
    /\ prevX w'' = None /\ prevY w'' = None
    /\ prevWidth w'' = None /\ prevHeight w'' = None.
Proof.
  apply (@toggleMaximize_twice_restores unit (Some (1280, 720)) None "w1" two_windows
           (mkWindow "w1" "First" tt 100 100 600 400 false false 1000 None None None None));
    reflexivity.
Defined.

Lemma openWindow_existing_witness :
  openWindow "w1" "Other title" tt no_options w1_minimized = restoreWindow "w1" w1_minimized
  /\ map id (windows (openWindow "w1" "Other title" tt no_options w1_minimized))
     = ["w1"; "w2"]
  /\ getWindow "w1" (openWindow "w1" "Other title" tt no_options w1_minimized)
     = Some (mkWindow "w1" "First" tt 100 100 600 400 false false 1002 None None None None)
  /\ forall t' c' o',
       openWindow "w1" t' c' o' w1_minimized
       = openWindow "w1" "Other title" tt no_options w1_minimized.
Proof.
  apply (@openWindow_existing unit "w1" "Other title" tt no_options w1_minimized
           (mkWindow "w1" "First" tt 100 100 600 400 true false 1000 None None None None)).
  reflexivity.
Defined.

Lemma toggleMaximize_frame_witness :
  nextZIndex (toggleMaximize None "w1" two_windows) = 1002
  /\ map id (windows (toggleMaximize None "w1" two_windows)) = ["w1"; "w2"]
  /\ map zIndex (windows (toggleMaximize None "w1" two_windows)) = [1000; 1001]
  /\ (exists w',
        getWindow "w1" (toggleMaximize None "w1" two_windows) = Some w'
        /\ zIndex w' = 1000 /\ id w' = "w1" /\ title w' = "First"
        /\ component w' = tt /\ minimized w' = false
        /\ maximized w' = true)
  /\ forall j, j <> "w1" ->
       getWindow j (toggleMaximize None "w1" two_windows) = getWindow j two_windows.
Proof.
  apply (@toggleMaximize_frame unit None "w1" two_windows
           (mkWindow "w1" "First" tt 100 100 600 400 false false 1000 None None None None)).
  reflexivity.
Defined.

End WindowManagerFacts.

(** * Properties of the virtual filesystem *)

Module StringFacts.

Import JsString.
Local Open Scope string_scope.

Lemma append_assoc a b c : (a ++ b) ++ c = a ++ (b ++ c).
Proof. induction a as [|ch a IH]; simpl; [reflexivity | now rewrite IH]. Qed.

Lemma append_length a b :
  String.length (a ++ b) = (String.length a + String.length b)%nat.
Proof. induction a as [|ch a IH]; simpl; [reflexivity | now rewrite IH]. Qed.

Lemma append_cancel p a b : p ++ a = p ++ b -> a = b.
Proof.
  induction p as [|ch p IH]; simpl; intros H; [exact H|].
  injection H as H. auto.
Qed.

Lemma append_grows p ch r : p ++ String ch r <> p.
Proof.
  intros H. apply (f_equal String.length) in H.
  rewrite append_length in H. simpl in H. lia.
Qed.

Lemma truthy_false s : truthy s = false <-> s = "".
Proof. destruct s; simpl; split; congruence. Qed.

Lemma truthy_true s : truthy s = true <-> s <> "".
Proof. destruct s; simpl; split; congruence. Qed.

Lemma truthy_append_r a b : truthy b = true -> truthy (a ++ b) = true.
Proof. destruct a; simpl; auto. Qed.

Lemma startsWith_append p r : startsWith (p ++ r) p = true.
Proof.
  induction p as [|ch p IH]; simpl; [reflexivity|].
  now rewrite Ascii.eqb_refl, IH.
Qed.

Lemma startsWith_split s p :
  startsWith s p = true -> s = p ++ substring_from (String.length p) s.
Proof.
  revert s. induction p as [|ch p IH]; intros s; simpl; [reflexivity|].
  destruct s as [|d s]; [discriminate|].
  intros H. apply andb_true_iff in H. destruct H as [Hc Hs].
  apply Ascii.eqb_eq in Hc. subst d. f_equal. auto.
Qed.

Lemma substring_from_append p r : substring_from (String.length p) (p ++ r) = r.
Proof. induction p as [|ch p IH]; simpl; [reflexivity | exact IH]. Qed.

(** *** Slash trimming *)

Lemma trim_leading_head s :
  match trim_leading s with
  | EmptyString => True
  | String ch _ => is_slash ch = false
  end.
Proof.
  induction s as [|ch s IH]; simpl; [exact I|].
  destruct (is_slash ch) eqn:E; [exact IH | exact E].
Qed.

Lemma trim_trailing_head s :
  match s with
  | EmptyString => True
  | String ch _ => is_slash ch = false
  end ->
  match trim_trailing s with
  | EmptyString => True
  | String ch _ => is_slash ch = false
  end.
Proof.
  destruct s as [|ch s]; simpl; [auto|].
  intros E. rewrite E. simpl. exact E.
Qed.

Lemma trim_leading_fixed ch r : is_slash ch = false -> trim_leading (String ch r) = String ch r.
Proof. intros E. simpl. now rewrite E. Qed.

Lemma trim_trailing_no_slash s : includes_slash s = false -> trim_trailing s = s.
Proof.
  induction s as [|ch s IH]; simpl; [reflexivity|].
  intros H. apply orb_false_iff in H. destruct H as [Hc Hs].
  rewrite Hc, (IH Hs). reflexivity.
Qed.

Lemma trim_trailing_append a b :
  truthy (trim_trailing b) = true -> trim_trailing (a ++ b) = a ++ trim_trailing b.
Proof.
  intros Hb. induction a as [|ch a IH]; simpl; [reflexivity|].
  rewrite IH, (truthy_append_r a _ Hb), andb_false_r. reflexivity.
Qed.

End StringFacts.

Module MapFacts.

Import JsMap.
Local Open Scope string_scope.

Section WithValues.
Context {V : Type}.
Implicit Types (m : JsMap.t V) (k : string) (v : V).

Lemma map_has_get k m :
  map_has k m = match map_get k m with Some _ => true | None => false end.
Proof.
  unfold map_has, map_get. induction m as [|kv m IH]; simpl; [reflexivity|].
  destruct (fst kv =? k); simpl; [reflexivity | exact IH].
Qed.

Lemma map_get_In k v m : map_get k m = Some v -> In (k, v) m.
Proof.
  unfold map_get. destruct (find _ m) as [kv|] eqn:E; [|discriminate].
  intros [= <-]. apply find_some in E. destruct E as [Hin Hk].
  apply String.eqb_eq in Hk. destruct kv; simpl in *; subst. exact Hin.
Qed.

Lemma map_get_absent k m : map_get k m = None -> ~ In k (keys m).
Proof.
  unfold map_get, keys. destruct (find _ m) eqn:E; [discriminate|].
  intros _ Hin. apply in_map_iff in Hin. destruct Hin as [kv [Hk Hin]].
  apply (find_none _ _ E) in Hin. apply String.eqb_neq in Hin. congruence.
Qed.

Lemma distinct_keys_get k v m :
  distinct_keys m = true -> In (k, v) m -> map_get k m = Some v.
Proof.
  unfold map_get. induction m as [|kv m IH]; simpl; [tauto|].
  intros Hd Hin. apply andb_true_iff in Hd. destruct Hd as [Hfresh Hd].
  destruct Hin as [->|Hin]; simpl.
  - now rewrite String.eqb_refl.
  - destruct (fst kv =? k) eqn:E; [|auto].
    exfalso. apply String.eqb_eq in E. subst k.
    rewrite map_has_get in Hfresh. unfold map_get in Hfresh.
    rewrite (IH Hd Hin) in Hfresh. discriminate.
Qed.

Lemma get_set_same k v m : map_get k (map_set k v m) = Some v.
Proof.
  unfold map_get. induction m as [|kv m IH]; simpl.
  - now rewrite String.eqb_refl.
  - destruct (fst kv =? k) eqn:E; simpl.
    + now rewrite String.eqb_refl.
    + rewrite E. exact IH.
Qed.

Lemma get_set_other k k' v m : k' <> k -> map_get k' (map_set k v m) = map_get k' m.
Proof.
  intros Hne. unfold map_get. induction m as [|kv m IH]; simpl.
  - apply String.eqb_neq in Hne. rewrite String.eqb_sym in Hne. now rewrite Hne.
  - destruct (fst kv =? k) eqn:E; simpl.
    + apply String.eqb_eq in E. rewrite E.
      assert ((k =? k') = false) as -> by (apply String.eqb_neq; congruence).
      reflexivity.
    + destruct (fst kv =? k'); [reflexivity | exact IH].
Qed.

Lemma keys_set_present k v v' m : map_get k m = Some v' -> keys (map_set k v m) = keys m.
Proof.
  unfold map_get, keys. induction m as [|kv m IH]; simpl; [discriminate|].
  destruct (fst kv =? k) eqn:E; simpl.
  - intros _. apply String.eqb_eq in E. now rewrite E.
  - intros H. now rewrite IH.
Qed.

Lemma get_delete k k' m :
  map_get k' (map_delete k m) = if k =? k' then None else map_get k' m.
Proof.
  unfold map_get, map_delete. induction m as [|kv m IH]; simpl.
  - now destruct (k =? k').
  - destruct (String.eqb_spec (fst kv) k) as [Hk|Hk]; simpl.
    + rewrite IH. subst k. destruct (fst kv =? k'); reflexivity.
    + destruct (String.eqb_spec (fst kv) k') as [Hk'|Hk']; [|exact IH].
      subst k'. apply String.eqb_neq in Hk. rewrite String.eqb_sym in Hk.
      now rewrite Hk.
Qed.

(** [set] and [delete] keep the keys distinct. *)
Lemma map_has_set k k' v m :
  map_has k' (map_set k v m) = (k =? k') || map_has k' m.
Proof.
  rewrite !map_has_get. destruct (String.eqb_spec k k') as [<-|Hne]; simpl.
  - now rewrite get_set_same.
  - rewrite get_set_other by congruence. reflexivity.
Qed.

Lemma map_has_delete k k' m :
  map_has k' (map_delete k m) = negb (k =? k') && map_has k' m.
Proof.
  rewrite !map_has_get, get_delete. now destruct (k =? k').
Qed.

Lemma map_set_distinct k v m :
  distinct_keys m = true -> distinct_keys (map_set k v m) = true.
Proof.
  induction m as [|kv m IH]; simpl; [reflexivity|].
  intros H. apply andb_true_iff in H. destruct H as [Hfresh Hd].
  destruct (String.eqb_spec (fst kv) k) as [Hk|Hk]; simpl.
  - rewrite <- Hk, Hfresh, Hd. reflexivity.
  - rewrite map_has_set, (IH Hd), andb_true_r.
    apply String.eqb_neq in Hk. rewrite String.eqb_sym in Hk.
    rewrite Hk. exact Hfresh.
Qed.

Lemma map_delete_distinct k m :
  distinct_keys m = true -> distinct_keys (map_delete k m) = true.
Proof.
  induction m as [|kv m IH]; simpl; [reflexivity|].
  intros H. apply andb_true_iff in H. destruct H as [Hfresh Hd].
  destruct (fst kv =? k); simpl; [auto|].
  fold (map_delete k m). rewrite map_has_delete, (IH Hd), andb_true_r.
  apply negb_true_iff in Hfresh. rewrite Hfresh, andb_false_r. reflexivity.
Qed.

(** *** Batches of deletions and insertions, as [forEach] applies them *)

Section Batches.
Context {A : Type} (key : A -> string) (value : A -> V).

Lemma get_delete_all (plan : list A) k m :
  map_get k (fold_left (fun acc r => map_delete (key r) acc) plan m)
  = if existsb (fun r => key r =? k) plan then None else map_get k m.
Proof.
  revert m. induction plan as [|r plan IH]; intros m; simpl; [reflexivity|].
  rewrite IH, get_delete.
  destruct (key r =? k); simpl; [|reflexivity].
  now destruct (existsb _ plan).
Qed.

Lemma get_set_all_miss (plan : list A) k m :
  (forall r, In r plan -> key r <> k) ->
  map_get k (fold_left (fun acc r => map_set (key r) (value r) acc) plan m) = map_get k m.
Proof.
  revert m. induction plan as [|r plan IH]; intros m Hmiss; simpl; [reflexivity|].
  rewrite IH by (intros; apply Hmiss; now right).
  apply get_set_other. intros H. apply (Hmiss r); [now left | auto].
Qed.

Lemma get_set_all_hit (plan : list A) k v m :
  (forall r, In r plan -> key r = k -> value r = v) ->
  map_get k m = Some v \/ (exists r, In r plan /\ key r = k) ->
  map_get k (fold_left (fun acc r => map_set (key r) (value r) acc) plan m) = Some v.
Proof.
  revert m. induction plan as [|r plan IH]; intros m Hval Hsrc; simpl.
  - destruct Hsrc as [H|[r [[] _]]]. exact H.
  - apply IH; [intros; apply Hval; [now right | assumption]|].
    destruct (String.eqb_spec (key r) k) as [Hk|Hk].
    + left. rewrite Hk, get_set_same. f_equal. apply Hval; [now left | exact Hk].
    + destruct Hsrc as [H|[r' [[<-|Hin] Hk']]].
      * left. rewrite get_set_other by congruence. exact H.
      * contradiction.
      * right. eauto.
Qed.

Lemma delete_all_distinct (plan : list A) m :
  distinct_keys m = true ->
  distinct_keys (fold_left (fun acc r => map_delete (key r) acc) plan m) = true.
Proof.
  revert m. induction plan as [|r plan IH]; intros m H; simpl; [exact H|].
  now apply IH, map_delete_distinct.
Qed.

Lemma set_all_distinct (plan : list A) m :
  distinct_keys m = true ->
  distinct_keys (fold_left (fun acc r => map_set (key r) (value r) acc) plan m) = true.
Proof.
  revert m. induction plan as [|r plan IH]; intros m H; simpl; [exact H|].
  now apply IH, map_set_distinct.
Qed.

End Batches.

End WithValues.

End MapFacts.

Module FileSystemFacts.

Import JsString JsMap VFS StringFacts MapFacts.
Local Open Scope string_scope.

Implicit Types (files : Store) (k root dest suffix : string).

(** *** Subtrees *)

Lemma in_subtree_spec root k :
  in_subtree root k = true <-> k = root \/ exists suffix, k = root ++ "/" ++ suffix.
Proof.
  unfold in_subtree. rewrite orb_true_iff, String.eqb_eq. split.
  - intros [H|H]; [now left | right].
    apply startsWith_split in H. rewrite append_assoc in H. eauto.
  - intros [H|[suffix H]]; [now left | right].
    subst k. rewrite <- append_assoc. apply startsWith_append.
Qed.

Lemma in_subtree_outside root k :
  k <> root -> (forall suffix, k <> root ++ "/" ++ suffix) -> in_subtree root k = false.
Proof.
  intros H1 H2. destruct (in_subtree root k) eqn:E; [|reflexivity].
  apply in_subtree_spec in E. destruct E as [E|[suffix E]]; [tauto|].
  now apply H2 in E.
Qed.

Lemma rebase_root root dest : rebase root dest root = dest.
Proof. unfold rebase. now rewrite String.eqb_refl. Qed.

Lemma rebase_below root dest suffix :
  rebase root dest (root ++ "/" ++ suffix)
  = if truthy suffix then dest ++ "/" ++ suffix else dest.
Proof.
  unfold rebase.
  assert ((root ++ "/" ++ suffix =? root) = false) as ->.
  { apply String.eqb_neq. apply append_grows. }
  replace (String.length root + 1)%nat with (String.length (root ++ "/"))
    by (rewrite append_length; reflexivity).
  rewrite <- append_assoc, substring_from_append. reflexivity.
Qed.

(** Every destination key lies in the subtree of the destination. *)
Lemma rebase_in_dest root dest k :
  in_subtree root k = true -> in_subtree dest (rebase root dest k) = true.
Proof.
  intros H. apply in_subtree_spec in H. apply in_subtree_spec.
  destruct H as [->|[suffix ->]].
  - left. apply rebase_root.
  - rewrite rebase_below. destruct (truthy suffix); eauto.
Qed.

Lemma collect_In root dest files r :
  In r (collect root dest files) <->
  exists kv, In kv files /\ in_subtree root (fst kv) = true
             /\ r = mkRekey (fst kv) (rebase root dest (fst kv)) (snd kv).
Proof.
  unfold collect. rewrite in_flat_map. split.
  - intros [kv [Hin Hr]]. exists kv. destruct (in_subtree root (fst kv)).
    + destruct Hr as [<-|[]]. auto.
    + destruct Hr.
  - intros [kv (Hin & Hsub & ->)]. exists kv. rewrite Hsub. simpl. auto.
Qed.

(** *** The two passes of a folder move or rename

    [rewrite r] is the record stored at [newPath r]. *)
Section Rekeying.
Variable rewrite : Rekey -> FileMetadata.

Definition rekeyed root dest files : Store :=
  fold_left (fun m r => map_set (newPath r) (rewrite r) m)
    (collect root dest files)
    (fold_left (fun m r => map_delete (oldPath r) m) (collect root dest files) files).

Lemma rekeyed_descendant root dest files suffix meta :
  distinct_keys files = true ->
  suffix <> "" ->
  map_get (root ++ "/" ++ suffix) files = Some meta ->
  map_get (dest ++ "/" ++ suffix) (rekeyed root dest files)
  = Some (rewrite (mkRekey (root ++ "/" ++ suffix) (dest ++ "/" ++ suffix) meta)).
Proof.
  intros Hd Hs Hget. unfold rekeyed.
  apply truthy_true in Hs.
  apply (get_set_all_hit newPath rewrite).
  - intros r Hin Hnew. f_equal.
    apply collect_In in Hin. destruct Hin as [[k m] (Hin & Hsub & ->)].
    simpl in *. apply in_subtree_spec in Hsub.
    destruct Hsub as [->|[suffix' ->]].
    + rewrite rebase_root in Hnew. symmetry in Hnew.
      destruct suffix; [discriminate|]. now apply append_grows in Hnew.
    + rewrite rebase_below in *. destruct (truthy suffix') eqn:E.
      * apply append_cancel in Hnew. injection Hnew as ->.
        apply (distinct_keys_get _ _ _ Hd) in Hin.
        assert (m = meta) as -> by (simpl in *; congruence). reflexivity.
      * symmetry in Hnew. destruct suffix; [discriminate|].
        now apply append_grows in Hnew.
  - right. exists (mkRekey (root ++ "/" ++ suffix) (dest ++ "/" ++ suffix) meta).
    split; [|reflexivity].
    apply collect_In. exists (root ++ "/" ++ suffix, meta). cbn [fst snd].
    split; [now apply map_get_In|].
    split; [apply in_subtree_spec; eauto|].
    rewrite rebase_below, Hs. reflexivity.
Qed.

Lemma rekeyed_vacated root dest files k :
  in_subtree root k = true ->
  in_subtree dest k = false ->
  map_get k (rekeyed root dest files) = None.
Proof.
  intros Hin Hout. unfold rekeyed.
  rewrite (get_set_all_miss newPath rewrite).
  - rewrite (get_delete_all oldPath).
    destruct (existsb _ _) eqn:E; [reflexivity|].
    destruct (map_get k files) as [m|] eqn:G; [|reflexivity].
    exfalso. apply map_get_In in G.
    assert (existsb (fun r => oldPath r =? k) (collect root dest files) = true);
      [|congruence].
    apply existsb_exists. exists (mkRekey k (rebase root dest k) m).
    split; [|apply String.eqb_refl].
    apply collect_In. exists (k, m). auto.
  - intros r Hr Hk. apply collect_In in Hr. destruct Hr as [kv (_ & Hsub & ->)].
    simpl in Hk. apply (rebase_in_dest root dest) in Hsub. congruence.
Qed.

End Rekeying.

Lemma moveFile_folder sourcePath targetFolder files src :
  map_get (normalizePath sourcePath) files = Some src ->
  isFolder src = true ->
  snd (moveFile sourcePath targetFolder files) = true ->
  fst (moveFile sourcePath targetFolder files)
  = rekeyed (fun r => with_path (newPath r) (metadata r))
      (normalizePath sourcePath) (moveDest targetFolder src) files.
Proof.
  unfold moveFile. intros -> ->.
  destruct (map_has _ files); simpl; [discriminate | reflexivity].
Qed.

Lemma renameFile_folder p newName files src :
  map_get (normalizePath p) files = Some src ->
  isFolder src = true ->
  snd (renameFile p newName files) = true ->
  fst (renameFile p newName files)
  = rekeyed
      (fun r =>
         with_path_name (newPath r)
           (if newPath r =? renameDest (normalizePath p) newName
            then newName else name (metadata r))
           (metadata r))
      (normalizePath p) (renameDest (normalizePath p) newName) files.
Proof.
  unfold renameFile. intros -> ->.
  destruct (map_has _ files); simpl; [discriminate | reflexivity].
Qed.

(** Every operation leaves a [Map]: the keys stay distinct. *)
Lemma deleteFile_distinct_keys p files :
  distinct_keys files = true -> distinct_keys (fst (deleteFile p files)) = true.
Proof.
  intros Hd. unfold deleteFile.
  destruct (if map_has _ files then _ else _) as [[actualPath file]|]; [|exact Hd].
  destruct (negb (truthy actualPath)); [exact Hd|].
  destruct (isFolder file); simpl.
  - now apply (delete_all_distinct (fun q : string => q)).
  - now apply map_delete_distinct.
Qed.

Lemma moveFile_distinct_keys sourcePath targetFolder files :
  distinct_keys files = true ->
  distinct_keys (fst (moveFile sourcePath targetFolder files)) = true.
Proof.
  intros Hd. unfold moveFile.
  destruct (map_get _ files) as [src|]; [|exact Hd].
  destruct (map_has _ files); [exact Hd|].
  destruct (isFolder src); simpl.
  - apply (set_all_distinct newPath (fun r => with_path (newPath r) (metadata r))).
    now apply (delete_all_distinct oldPath).
  - now apply map_set_distinct, map_delete_distinct.
Qed.

Lemma renameFile_distinct_keys p newName files :
  distinct_keys files = true ->
  distinct_keys (fst (renameFile p newName files)) = true.
Proof.
  intros Hd. unfold renameFile.
  destruct (map_get _ files) as [src|]; [|exact Hd].
  destruct (map_has _ files); [exact Hd|].
  destruct (isFolder src); simpl.
  - apply (set_all_distinct newPath
             (fun r => with_path_name (newPath r)
                         (if newPath r =? renameDest (normalizePath p) newName
                          then newName else name (metadata r))
                         (metadata r))).
    now apply (delete_all_distinct oldPath).
  - now apply map_set_distinct, map_delete_distinct.
Qed.

(** The two ways out of [setStorage]. *)
Lemma setStorage_cases accepts stored files v files' outcome :
  setStorage accepts stored files v = (files', outcome) ->
  (accepts files = true /\ files' = files /\ outcome = Returned v)
  \/ (accepts files = false /\ files' = stored /\ outcome = Threw StorageException).
Proof.
  unfold setStorage. destruct (accepts files); intros [= <- <-]; auto.
Qed.

Lemma perform_distinct_keys accepts c files files' outcome :
  distinct_keys files = true ->
  perform accepts c files = (files', outcome) ->
  distinct_keys files' = true.
Proof.
  intros Hd.
  destruct c as [filename text folder now | folderName parentFolder now | p | p
                | sourcePath targetFolder | p newName | p | folder cmp | | ];
    simpl; try (intros [= <- _]; exact Hd).
  - intros H. apply setStorage_cases in H.
    destruct H as [(_ & -> & _)|(_ & -> & _)]; [|exact Hd].
    now apply map_set_distinct.
  - unfold createFolder. destruct (map_has _ files); [intros [= <- _]; exact Hd|].
    intros H. apply setStorage_cases in H.
    destruct H as [(_ & -> & _)|(_ & -> & _)]; [|exact Hd].
    now apply map_set_distinct.
  - destruct (snd (deleteFile p files)).
    + intros H. apply setStorage_cases in H.
      destruct H as [(_ & -> & _)|(_ & -> & _)]; [|exact Hd].
      now apply deleteFile_distinct_keys.
    + intros [= <- _]. now apply deleteFile_distinct_keys.
  - destruct (snd (moveFile sourcePath targetFolder files)).
    + intros H. apply setStorage_cases in H.
      destruct H as [(_ & -> & _)|(_ & -> & _)]; [|exact Hd].
      now apply moveFile_distinct_keys.
    + intros [= <- _]. now apply moveFile_distinct_keys.
  - destruct (snd (renameFile p newName files)).
    + intros H. apply setStorage_cases in H.
      destruct H as [(_ & -> & _)|(_ & -> & _)]; [|exact Hd].
      now apply renameFile_distinct_keys.
    + intros [= <- _]. now apply renameFile_distinct_keys.
  - intros [= <- _]. reflexivity.
Qed.

(** *** Claims *)

(** C1. [deleteFile] on the path [f] of a folder entry removes the entry at
    [f] and every entry whose key is [f], a separator and any suffix, and
    leaves every other key with the entry it had.  [f] is a path of the data
    model: normalised and not the root. *)
Theorem deleteFile_folder_cascade files p f e :
  normalizePath p = f ->
  f <> "" ->
  map_get f files = Some e ->
  isFolder e = true ->
  snd (deleteFile p files) = true
  /\ map_get f (fst (deleteFile p files)) = None
  /\ (forall suffix, map_get (f ++ "/" ++ suffix) (fst (deleteFile p files)) = None)
  /\ (forall k, k <> f -> (forall suffix, k <> f ++ "/" ++ suffix) ->
        map_get k (fst (deleteFile p files)) = map_get k files).
Proof.
  intros Hp Hf Hget Hfolder.
  assert (Hall : forall k,
             map_get k (fst (deleteFile p files))
             = if in_subtree f k then None else map_get k files).
  { intros k. unfold deleteFile. rewrite Hp, map_has_get, Hget.
    apply truthy_true in Hf. rewrite Hf, Hfolder. simpl.
    rewrite (get_delete_all (fun q : string => q)).
    destruct (existsb _ _) eqn:E.
    - apply existsb_exists in E. destruct E as [q [Hq Hk]].
      apply String.eqb_eq in Hk. subst q. apply filter_In in Hq.
      destruct Hq as [_ ->]. reflexivity.
    - destruct (in_subtree f k) eqn:S; [|reflexivity].
      destruct (map_get k files) as [m|] eqn:G; [|reflexivity].
      exfalso. apply map_get_In in G.
      assert (existsb (fun q => q =? k) (filter (in_subtree f) (keys files)) = true);
        [|congruence].
      apply existsb_exists. exists k. split; [|apply String.eqb_refl].
      apply filter_In. split; [|exact S].
      unfold keys. apply in_map_iff. exists (k, m). auto. }
  split.
  - unfold deleteFile. rewrite Hp, map_has_get, Hget.
    apply truthy_true in Hf. rewrite Hf, Hfolder. reflexivity.
  - split; [|split].
    + rewrite Hall. assert (in_subtree f f = true) as ->; [|reflexivity].
      apply in_subtree_spec. now left.
    + intros suffix. rewrite Hall.
      assert (in_subtree f (f ++ "/" ++ suffix) = true) as ->; [|reflexivity].
      apply in_subtree_spec. eauto.
    + intros k H1 H2. rewrite Hall, in_subtree_outside; auto.
Qed.

(** C2. A successful [moveFile] or [renameFile] of a folder at [s] stores
    every descendant [s/suffix] at [dest/suffix], where [dest] is the new path
    of the folder, with its record unchanged except for the [path] field; the
    old key is vacated unless it lies under [dest] itself. *)
Theorem folder_move_rename_rekeys_descendants files :
  distinct_keys files = true ->
  (forall sourcePath targetFolder src suffix meta,
      map_get (normalizePath sourcePath) files = Some src ->
      isFolder src = true ->
      snd (moveFile sourcePath targetFolder files) = true ->
      suffix <> "" ->
      map_get (normalizePath sourcePath ++ "/" ++ suffix) files = Some meta ->
      map_get (moveDest targetFolder src ++ "/" ++ suffix)
        (fst (moveFile sourcePath targetFolder files))
      = Some (with_path (moveDest targetFolder src ++ "/" ++ suffix) meta)
      /\ (in_subtree (moveDest targetFolder src)
            (normalizePath sourcePath ++ "/" ++ suffix) = false ->
          map_get (normalizePath sourcePath ++ "/" ++ suffix)
            (fst (moveFile sourcePath targetFolder files)) = None))
  /\ (forall p newName src suffix meta,
        map_get (normalizePath p) files = Some src ->
        isFolder src = true ->
        snd (renameFile p newName files) = true ->
        suffix <> "" ->
        map_get (normalizePath p ++ "/" ++ suffix) files = Some meta ->
        map_get (renameDest (normalizePath p) newName ++ "/" ++ suffix)
          (fst (renameFile p newName files))
        = Some (with_path (renameDest (normalizePath p) newName ++ "/" ++ suffix) meta)
        /\ (in_subtree (renameDest (normalizePath p) newName)
              (normalizePath p ++ "/" ++ suffix) = false ->
            map_get (normalizePath p ++ "/" ++ suffix)
              (fst (renameFile p newName files)) = None)).
Proof.
  intros Hd. split.
  - intros sourcePath targetFolder src suffix meta Hsrc Hfolder Hok Hs Hget.
    rewrite (@moveFile_folder _ _ _ _ Hsrc Hfolder Hok). split.
    + now rewrite (@rekeyed_descendant _ _ _ _ _ _ Hd Hs Hget).
    + intros Hout. apply rekeyed_vacated; [|exact Hout].
      apply in_subtree_spec. eauto.
  - intros p newName src suffix meta Hsrc Hfolder Hok Hs Hget.
    rewrite (@renameFile_folder _ _ _ _ Hsrc Hfolder Hok). split.
    + rewrite (@rekeyed_descendant _ _ _ _ _ _ Hd Hs Hget). cbn [newPath metadata].
      assert ((renameDest (normalizePath p) newName ++ "/" ++ suffix
               =? renameDest (normalizePath p) newName) = false) as ->.
      { apply String.eqb_neq. apply append_grows. }
      reflexivity.
    + intros Hout. apply rekeyed_vacated; [|exact Hout].
      apply in_subtree_spec. eauto.
Qed.

Lemma deleteFile_false_unchanged p files :
  snd (deleteFile p files) = false -> fst (deleteFile p files) = files.
Proof.
  unfold deleteFile.
  destruct (if map_has _ files then _ else _) as [[actualPath file]|]; [|reflexivity].
  destruct (negb (truthy actualPath)); [reflexivity|].
  destruct (isFolder file); discriminate.
Qed.

Lemma moveFile_false_unchanged sourcePath targetFolder files :
  snd (moveFile sourcePath targetFolder files) = false ->
  fst (moveFile sourcePath targetFolder files) = files.
Proof.
  unfold moveFile. destruct (map_get _ files) as [src|]; [|reflexivity].
  destruct (map_has _ files); [reflexivity|].
  destruct (isFolder src); discriminate.
Qed.

Lemma renameFile_false_unchanged p newName files :
  snd (renameFile p newName files) = false -> fst (renameFile p newName files) = files.
Proof.
  unfold renameFile. destruct (map_get _ files) as [src|]; [|reflexivity].
  destruct (map_has _ files); [reflexivity|].
  destruct (isFolder src); discriminate.
Qed.

(** C5, as the code has it.  A missing or unreadable entry is reported as a
    value, whatever the host does: [readFile] returns [null] for a missing
    path or a folder, [deleteFile], [moveFile] and [renameFile] return
    [false] for a missing source, and the latter two for an occupied
    destination, with the stored map as it was.  A call throws in exactly two
    ways, and after either the stored map is the one before the call:
    [createFolder] on a path that already has an entry throws
    [Error("Folder already exists")]; and a call that gets as far as
    [setStorage] ([writeFile], [createFolder] on a free path, a successful
    [deleteFile], [moveFile] or [renameFile]) throws what
    [localStorage.setItem] throws when the host refuses the new map.
    [readFile], [exists], [list], [getAllFiles] and [clear] never throw. *)
Theorem failure_reporting accepts files :
  (forall c e,
      snd (perform accepts c files) = Threw e -> fst (perform accepts c files) = files)
  /\ (forall c message,
        snd (perform accepts c files) = Threw (ErrorObject message) <->
        exists folderName parentFolder now,
          c = CallCreateFolder folderName parentFolder now
          /\ map_has (childPath folderName parentFolder) files = true
          /\ message = "Folder already exists")
  /\ (forall c,
        snd (perform accepts c files) = Threw StorageException <->
        match c with
        | CallWriteFile filename text folder now =>
            accepts (writeFile filename text folder now files) = false
        | CallCreateFolder folderName parentFolder now =>
            exists files',
              createFolder folderName parentFolder now files = Return files'
              /\ accepts files' = false
        | CallDeleteFile p =>
            snd (deleteFile p files) = true
            /\ accepts (fst (deleteFile p files)) = false
        | CallMoveFile sourcePath targetFolder =>
            snd (moveFile sourcePath targetFolder files) = true
            /\ accepts (fst (moveFile sourcePath targetFolder files)) = false
        | CallRenameFile p newName =>
            snd (renameFile p newName files) = true
            /\ accepts (fst (renameFile p newName files)) = false
        | CallReadFile _ | CallExists _ | CallList _ _ | CallGetAllFiles | CallClear =>
            False
        end)
  /\ (forall p,
        map_has (normalizePath p) files = false ->
        scan p (normalizePath p) files = None ->
        perform accepts (CallReadFile p) files = (files, Returned (StringOrNull None))
        /\ perform accepts (CallDeleteFile p) files = (files, Returned (Boolean false)))
  /\ (forall p e,
        map_get (normalizePath p) files = Some e -> isFolder e = true ->
        perform accepts (CallReadFile p) files = (files, Returned (StringOrNull None)))
  /\ (forall sourcePath targetFolder,
        map_get (normalizePath sourcePath) files = None ->
        perform accepts (CallMoveFile sourcePath targetFolder) files
        = (files, Returned (Boolean false)))
  /\ (forall sourcePath targetFolder src,
        map_get (normalizePath sourcePath) files = Some src ->
        map_has (moveDest targetFolder src) files = true ->
        perform accepts (CallMoveFile sourcePath targetFolder) files
        = (files, Returned (Boolean false)))
  /\ (forall p newName,
        map_get (normalizePath p) files = None ->
        perform accepts (CallRenameFile p newName) files
        = (files, Returned (Boolean false)))
  /\ (forall p newName src,
        map_get (normalizePath p) files = Some src ->
        map_has (renameDest (normalizePath p) newName) files = true ->
        perform accepts (CallRenameFile p newName) files
        = (files, Returned (Boolean false)))
  /\ (forall c,
        snd (perform accepts c files) = Returned (Boolean false) ->
        fst (perform accepts c files) = files).
Proof.
  split; [|split; [|split; [|repeat split]]].
  - intros c e.
    destruct c as [filename text folder now | folderName parentFolder now | p | p
                  | sourcePath targetFolder | p newName | p | folder cmp | | ];
      simpl; try discriminate.
    + unfold setStorage. destruct (accepts _); [discriminate | reflexivity].
    + destruct (createFolder folderName parentFolder now files); [|reflexivity].
      unfold setStorage. destruct (accepts _); [discriminate | reflexivity].
    + destruct (snd (deleteFile p files)); [|discriminate].
      unfold setStorage. destruct (accepts _); [discriminate | reflexivity].
    + destruct (snd (moveFile sourcePath targetFolder files)); [|discriminate].
      unfold setStorage. destruct (accepts _); [discriminate | reflexivity].
    + destruct (snd (renameFile p newName files)); [|discriminate].
      unfold setStorage. destruct (accepts _); [discriminate | reflexivity].
  - intros c message. split.
    + destruct c as [filename text folder now | folderName parentFolder now | p | p
                    | sourcePath targetFolder | p newName | p | folder cmp | | ];
        simpl; try discriminate.
      * unfold setStorage. destruct (accepts _); discriminate.
      * unfold createFolder.
        destruct (map_has (childPath folderName parentFolder) files) eqn:E.
        -- intros [= <-]. eauto 6.
        -- unfold setStorage. destruct (accepts _); discriminate.
      * destruct (snd (deleteFile p files)); [|discriminate].
        unfold setStorage. destruct (accepts _); discriminate.
      * destruct (snd (moveFile sourcePath targetFolder files)); [|discriminate].
        unfold setStorage. destruct (accepts _); discriminate.
      * destruct (snd (renameFile p newName files)); [|discriminate].
        unfold setStorage. destruct (accepts _); discriminate.
    + intros (folderName & parentFolder & now & -> & Hhas & ->).
      simpl. unfold createFolder. now rewrite Hhas.
  - intros c.
    destruct c as [filename text folder now | folderName parentFolder now | p | p
                  | sourcePath targetFolder | p newName | p | folder cmp | | ];
      simpl; try (split; [discriminate | intros []]).
    + unfold setStorage. destruct (accepts _); simpl; split; congruence.
    + destruct (createFolder folderName parentFolder now files) as [files'|message].
      * unfold setStorage. destruct (accepts files') eqn:E; simpl; split.
        -- discriminate.
        -- intros (f & [= <-] & Hf). congruence.
        -- eauto.
        -- reflexivity.
      * split; [discriminate | intros (f & Hf & _); discriminate].
    + destruct (snd (deleteFile p files)); simpl.
      * unfold setStorage. destruct (accepts _); simpl; split;
          [discriminate | intros [_ H]; discriminate | auto | reflexivity].
      * split; [discriminate | intros [H _]; discriminate].
    + destruct (snd (moveFile sourcePath targetFolder files)); simpl.
      * unfold setStorage. destruct (accepts _); simpl; split;
          [discriminate | intros [_ H]; discriminate | auto | reflexivity].
      * split; [discriminate | intros [H _]; discriminate].
    + destruct (snd (renameFile p newName files)); simpl.
      * unfold setStorage. destruct (accepts _); simpl; split;
          [discriminate | intros [_ H]; discriminate | auto | reflexivity].
      * split; [discriminate | intros [H _]; discriminate].
  - simpl. unfold readFile. rewrite map_has_get in H.
    destruct (map_get (normalizePath p) files); [discriminate|].
    now rewrite H0.
  - simpl. unfold deleteFile. now rewrite H, H0.
  - intros p e Hget Hfolder. simpl. unfold readFile. now rewrite Hget, Hfolder.
  - intros sourcePath targetFolder Hget. simpl. unfold moveFile. now rewrite Hget.
  - intros sourcePath targetFolder src Hget Hhas. simpl. unfold moveFile.
    now rewrite Hget, Hhas.
  - intros p newName Hget. simpl. unfold renameFile. now rewrite Hget.
  - intros p newName src Hget Hhas. simpl. unfold renameFile. now rewrite Hget, Hhas.
  - intros c.
    destruct c as [filename text folder now | folderName parentFolder now | p | p
                  | sourcePath targetFolder | p newName | p | folder cmp | | ];
      simpl; try discriminate; try reflexivity.
    + unfold setStorage. destruct (accepts _); discriminate.
    + destruct (createFolder folderName parentFolder now files); [|discriminate].
      unfold setStorage. destruct (accepts _); discriminate.
    + destruct (snd (deleteFile p files)) eqn:E.
      * unfold setStorage. destruct (accepts _); discriminate.
      * intros _. now apply deleteFile_false_unchanged.
    + destruct (snd (moveFile sourcePath targetFolder files)) eqn:E.
      * unfold setStorage. destruct (accepts _); discriminate.
      * intros _. now apply moveFile_false_unchanged.
    + destruct (snd (renameFile p newName files)) eqn:E.
      * unfold setStorage. destruct (accepts _); discriminate.
      * intros _. now apply renameFile_false_unchanged.
Qed.

Lemma normalizePath_head p :
  match normalizePath p with
  | EmptyString => True
  | String ch _ => is_slash ch = false
  end.
Proof.
  unfold normalizePath. destruct (truthy p); [|exact I].
  apply trim_trailing_head, trim_leading_head.
Qed.

(** The key computed for a leaf name under a parent folder is normalised. *)
Lemma childPath_normalized leaf folder :
  is_leaf leaf = true -> is_parent folder = true ->
  normalizePath (childPath leaf folder) = childPath leaf folder.
Proof.
  unfold is_leaf, is_parent. intros Hleaf Hparent.
  apply andb_true_iff in Hleaf. destruct Hleaf as [Hne Hns].
  apply negb_true_iff in Hns.
  destruct leaf as [|ch leaf]; [discriminate|].
  assert (Hch : is_slash ch = false).
  { simpl in Hns. now apply orb_false_iff in Hns. }
  unfold childPath. destruct (truthy folder) eqn:Hf; simpl in Hparent.
  - pose proof (normalizePath_head folder) as Hhead.
    destruct (normalizePath folder) as [|c0 n]; [discriminate|].
    unfold normalizePath at 1. cbn [append truthy].
    rewrite (@trim_leading_fixed _ _ Hhead).
    change (trim_trailing (String c0 n ++ String "/" (String ch leaf))
            = String c0 n ++ String "/" (String ch leaf)).
    assert (Hlast : trim_trailing (String "/" (String ch leaf)) = String "/" (String ch leaf)).
    { change (trim_trailing (String "/" (String ch leaf)))
        with (if is_slash "/" && negb (truthy (trim_trailing (String ch leaf)))
              then "" else String "/" (trim_trailing (String ch leaf))).
      rewrite (@trim_trailing_no_slash _ Hns). reflexivity. }
    rewrite trim_trailing_append; rewrite Hlast; reflexivity.
  - unfold normalizePath. cbn [truthy].
    rewrite (@trim_leading_fixed _ _ Hch). now apply trim_trailing_no_slash.
Qed.

(** C7. After [writeFile(name, content, parent)] with a leaf name,
    [readFile] returns [content] on the written path: [name] itself when the
    parent is the root [""], and the normalised parent, a separator and
    [name] otherwise; so does [readFile] on any path that normalises to
    it. *)
Theorem write_then_read files filename text folder now :
  is_leaf filename = true ->
  (folder = "" ->
   readFile filename (writeFile filename text folder now files) = Some text
   /\ forall q,
        normalizePath q = filename ->
        readFile q (writeFile filename text folder now files) = Some text)
  /\ (normalizePath folder <> "" ->
      readFile (normalizePath folder ++ "/" ++ filename)
        (writeFile filename text folder now files) = Some text
      /\ forall q,
           normalizePath q = normalizePath folder ++ "/" ++ filename ->
           readFile q (writeFile filename text folder now files) = Some text).
Proof.
  intros Hleaf.
  assert (Hq : forall q,
             normalizePath q = childPath filename folder ->
             readFile q (writeFile filename text folder now files) = Some text).
  { intros q Hn. unfold readFile, writeFile. rewrite Hn, get_set_same. reflexivity. }
  split.
  - intros ->.
    assert (Hroot : normalizePath filename = childPath filename "")
      by (apply (childPath_normalized filename "" Hleaf); reflexivity).
    split; [now apply Hq|].
    intros q Hn. apply Hq. exact Hn.
  - intros Hfolder.
    assert (Htruthy : truthy folder = true).
    { destruct folder; [|reflexivity]. now contradiction Hfolder. }
    assert (Hparent : is_parent folder = true).
    { unfold is_parent. apply truthy_true in Hfolder. rewrite Hfolder.
      apply orb_true_r. }
    assert (Hpath : childPath filename folder = normalizePath folder ++ "/" ++ filename)
      by (unfold childPath; now rewrite Htruthy).
    split.
    + apply Hq. rewrite <- Hpath. now apply childPath_normalized.
    + intros q Hn. apply Hq. now rewrite Hpath.
Qed.


(** *** Test points *)

Import Scenario.

Lemma deleteFile_folder_cascade_witness :
  snd (deleteFile "/docs/" sample_store) = true
  /\ map_get "docs" (fst (deleteFile "/docs/" sample_store)) = None
  /\ (forall suffix,
        map_get ("docs" ++ "/" ++ suffix) (fst (deleteFile "/docs/" sample_store)) = None)
  /\ (forall k, k <> "docs" -> (forall suffix, k <> "docs" ++ "/" ++ suffix) ->
        map_get k (fst (deleteFile "/docs/" sample_store)) = map_get k sample_store).
Proof.
  apply (@deleteFile_folder_cascade sample_store "/docs/" "docs"
           (mkFile "docs" "docs" "" 0 1 1 true)).
  - reflexivity.
  - discriminate.
  - reflexivity.
  - reflexivity.
Defined.

Lemma folder_move_rename_rekeys_descendants_witness :
  map_get "archive/docs/sub/b.txt" (fst (moveFile "docs" "archive" sample_store))
  = Some (mkFile "b.txt" "archive/docs/sub/b.txt" "yo" 2 4 4 false)
  /\ map_get "docs/sub/b.txt" (fst (moveFile "docs" "archive" sample_store)) = None
  /\ map_get "papers/a.txt" (fst (renameFile "docs" "papers" sample_store))
     = Some (mkFile "a.txt" "papers/a.txt" "hi" 2 2 2 false)
  /\ map_get "docs/a.txt" (fst (renameFile "docs" "papers" sample_store)) = None.
Proof.
  destruct (@folder_move_rename_rekeys_descendants sample_store eq_refl) as [Hmove Hrename].
  destruct (Hmove "docs" "archive" (mkFile "docs" "docs" "" 0 1 1 true) "sub/b.txt"
              (mkFile "b.txt" "docs/sub/b.txt" "yo" 2 4 4 false)
              eq_refl eq_refl eq_refl ltac:(discriminate) eq_refl) as [Hm1 Hm2].
  destruct (Hrename "docs" "papers" (mkFile "docs" "docs" "" 0 1 1 true) "a.txt"
              (mkFile "a.txt" "docs/a.txt" "hi" 2 2 2 false)
              eq_refl eq_refl eq_refl ltac:(discriminate) eq_refl) as [Hr1 Hr2].
  split; [exact Hm1|]. split; [exact (Hm2 eq_refl)|].
  split; [exact Hr1 | exact (Hr2 eq_refl)].
Defined.

(** C5 as stated fails: ["docs"] already has an entry in the sample store, and
    [createFolder("docs", "")] throws, also on a host that takes every
    write. *)
Lemma createFolder_existing_counterexample :
  exists_ "docs" sample_store = true
  /\ createFolder "docs" "" 7 sample_store = Throw "Folder already exists"
  /\ perform (fun _ => true) (CallCreateFolder "docs" "" 7) sample_store
     = (sample_store, Threw (ErrorObject "Folder already exists"))
  /\ ~ (forall accepts c files, exists v, snd (perform accepts c files) = Returned v).
Proof.
  repeat split.
  intros H.
  destruct (H (fun _ => true) (CallCreateFolder "docs" "" 7) sample_store) as [v Hv].
  discriminate Hv.
Qed.

(** A host whose storage is full: it refuses every write. *)
Lemma failure_reporting_witness :
  (forall message,
      snd (perform (fun _ => false) (CallCreateFolder "docs" "" 7) sample_store)
      = Threw (ErrorObject message)
      <-> message = "Folder already exists")
  /\ perform (fun _ => false) (CallWriteFile "n.txt" "x" "docs" 7) sample_store
     = (sample_store, Threw StorageException)
  /\ perform (fun _ => false) (CallReadFile "missing.txt") sample_store
     = (sample_store, Returned (StringOrNull None))
  /\ perform (fun _ => false) (CallDeleteFile "missing.txt") sample_store
     = (sample_store, Returned (Boolean false))
  /\ perform (fun _ => false) (CallReadFile "docs") sample_store
     = (sample_store, Returned (StringOrNull None))
  /\ perform (fun _ => false) (CallMoveFile "missing.txt" "docs") sample_store
     = (sample_store, Returned (Boolean false))
  /\ perform (fun _ => false) (CallMoveFile "top.txt" "") sample_store
     = (sample_store, Returned (Boolean false))
  /\ perform (fun _ => false) (CallRenameFile "docs/a.txt" "sub") sample_store
     = (sample_store, Returned (Boolean false)).
Proof.
  destruct (@failure_reporting (fun _ => false) sample_store)
    as (Hkept & Herror & Hstorage & Hmissing & Hfolder & Hmove & Hmove' & _ & Hrename' & _).
  split.
  - intros message. rewrite Herror. split.
    + intros (a & b & c & _ & _ & ->). reflexivity.
    + intros ->. exists "docs", "", 7%Z. repeat split.
  - split.
    + assert (Hthrew : snd (perform (fun _ => false) (CallWriteFile "n.txt" "x" "docs" 7)
                              sample_store) = Threw StorageException)
        by (apply (Hstorage (CallWriteFile "n.txt" "x" "docs" 7)); reflexivity).
      pose proof (Hkept _ _ Hthrew) as Hsame.
      destruct (perform (fun _ => false) (CallWriteFile "n.txt" "x" "docs" 7) sample_store)
        as [stored outcome].
      simpl in Hthrew, Hsame. now rewrite Hthrew, Hsame.
    + destruct (Hmissing "missing.txt" eq_refl eq_refl) as [Hread Hdelete].
      split; [exact Hread|]. split; [exact Hdelete|].
      split; [exact (Hfolder "docs" _ eq_refl eq_refl)|].
      split; [exact (Hmove "missing.txt" "docs" eq_refl)|].
      split; [exact (Hmove' "top.txt" "" _ eq_refl eq_refl)|].
      exact (Hrename' "docs/a.txt" "sub" _ eq_refl eq_refl).
Defined.

Lemma write_then_read_witness :
  readFile "docs/sub/notes.txt"
    (writeFile "notes.txt" "hello" "/docs/sub/" 9 sample_store) = Some "hello"
  /\ readFile "/docs/sub/notes.txt/"
       (writeFile "notes.txt" "hello" "/docs/sub/" 9 sample_store) = Some "hello"
  /\ readFile "notes.txt" (writeFile "notes.txt" "hello" "" 9 sample_store) = Some "hello".
Proof.
  destruct (@write_then_read sample_store "notes.txt" "hello" "/docs/sub/" 9 eq_refl)
    as [_ Hnested].
  destruct (Hnested ltac:(discriminate)) as [Hexact Hany].
  destruct (@write_then_read sample_store "notes.txt" "hello" "" 9 eq_refl)
    as [Hroot _].
  split; [exact Hexact|].
  split; [exact (Hany "/docs/sub/notes.txt/" eq_refl) | exact (proj1 (Hroot eq_refl))].
Defined.


End FileSystemFacts.

(** * Further properties of the window manager *)

Module WindowManagerExtras.

Import WM WindowManagerFacts.
Local Open Scope Z_scope.

Section Extras.
Context {R : Type}.

Implicit Types (s : WindowManagerState R) (w : WindowState R) (ws : list (WindowState R)).

(** The saved geometry is present exactly while the window is maximized. *)
Definition snapshot_ok w : bool :=
  match maximized w, prevX w, prevY w, prevWidth w, prevHeight w with
  | true, Some _, Some _, Some _, Some _ => true
  | false, None, None, None, None => true
  | _, _, _, _, _ => false
  end.

Lemma Forall_touch (P : WindowState R -> Prop) i f ws :
  (forall w, P w -> P (f w)) -> Forall P ws -> Forall P (touch i f ws).
Proof.
  intros Hf H. unfold touch. rewrite Forall_forall in *.
  intros o Hin. apply in_map_iff in Hin. destruct Hin as [a [<- Hin]].
  destruct (has_id i a); auto.
Qed.

Lemma getWindow_closeWindow i s : getWindow i (closeWindow i s) = None.
Proof.
  unfold getWindow, closeWindow. simpl.
  destruct (find _ _) as [w|] eqn:E; [|reflexivity].
  apply find_some in E. destruct E as [Hin Hid].
  apply filter_In in Hin. destruct Hin as [_ Hne]. now rewrite Hid in Hne.
Qed.

Lemma find_filter_other i j ws :
  j <> i ->
  find (has_id j) (filter (fun w => negb (has_id i w)) ws) = find (has_id j) ws.
Proof.
  intros Hji. induction ws as [|a ws IH]; simpl; [reflexivity|].
  destruct (has_id i a) eqn:Ei; simpl.
  - apply has_id_true in Ei.
    assert (has_id j a = false) as -> by (apply has_id_false; congruence).
    exact IH.
  - destruct (has_id j a); [reflexivity | exact IH].
Qed.

Lemma filter_absent i ws :
  ~ In i (map id ws) -> filter (fun w => negb (has_id i w)) ws = ws.
Proof.
  induction ws as [|a ws IH]; simpl; intros Hn; [reflexivity|].
  destruct (has_id i a) eqn:E; simpl.
  - apply has_id_true in E. tauto.
  - rewrite IH; tauto.
Qed.

Lemma find_app_fresh i ws w :
  find (has_id i) ws = None -> id w = i -> find (has_id i) (ws ++ [w]) = Some w.
Proof.
  intros Hnone Hid. induction ws as [|a ws IH]; simpl in *.
  - assert (has_id i w = true) as -> by now apply has_id_true. reflexivity.
  - destruct (has_id i a); [discriminate | auto].
Qed.

Lemma find_app_other i j ws w :
  id w = i -> j <> i -> find (has_id j) (ws ++ [w]) = find (has_id j) ws.
Proof.
  intros Hid Hji. induction ws as [|a ws IH]; simpl.
  - assert (has_id j w = false) as -> by (apply has_id_false; congruence). reflexivity.
  - destruct (has_id j a); [reflexivity | exact IH].
Qed.

(** The record created by [openWindow] for a new id. *)
Definition fresh_window (i t : string) (c : R) (o : Options) s : WindowState R :=
  let count := Z.of_nat (List.length (windows s)) in
  mkWindow i t c
    (nullish (opt_x o) (100 + count * 30)) (nullish (opt_y o) (100 + count * 30))
    (nullish (opt_width o) 600) (nullish (opt_height o) 400)
    false false (nextZIndex s) None None None None.

(** X1. [closeWindow] removes the record of the id and nothing else: the
    other records are found as before, the counter keeps its value, and a
    second [closeWindow] changes nothing. *)
Theorem closeWindow_removes i s :
  getWindow i (closeWindow i s) = None
  /\ (forall j, j <> i -> getWindow j (closeWindow i s) = getWindow j s)
  /\ nextZIndex (closeWindow i s) = nextZIndex s
  /\ closeWindow i (closeWindow i s) = closeWindow i s.
Proof.
  split; [apply getWindow_closeWindow|].
  split; [intros j Hj; now apply find_filter_other|].
  split; [reflexivity|].
  unfold closeWindow at 1. cbn [windows nextZIndex].
  assert (H := getWindow_closeWindow i s).
  apply getWindow_none_fresh in H.
  change (windows (closeWindow i s))
    with (filter (fun w => negb (has_id i w)) (windows s)) in H.
  unfold closeWindow. cbn [windows nextZIndex]. f_equal.
  now apply filter_absent.
Qed.

(** X2. [minimizeWindow] on an open window sets [minimized] and keeps every
    other field of the record (geometry and z-index included), the other
    records and the counter; minimizing twice is minimizing once. *)
Theorem minimizeWindow_only_flag i s w :
  getWindow i s = Some w ->
  getWindow i (minimizeWindow i s) = Some (with_minimized true w)
  /\ (forall j, j <> i -> getWindow j (minimizeWindow i s) = getWindow j s)
  /\ map zIndex (windows (minimizeWindow i s)) = map zIndex (windows s)
  /\ nextZIndex (minimizeWindow i s) = nextZIndex s
  /\ minimizeWindow i (minimizeWindow i s) = minimizeWindow i s.
Proof.
  intros Hw.
  split; [now apply (touch_find i (with_minimized true))|].
  split; [intros j Hj; now apply (touch_find_other (with_minimized true))|].
  split; [now apply (touch_zIndex i (with_minimized true))|].
  split; [reflexivity|].
  unfold minimizeWindow. cbn [windows nextZIndex]. f_equal.
  rewrite map_map. apply map_ext. intros a.
  destruct (has_id i a) eqn:E.
  - assert (has_id i (with_minimized true a) = true) as -> by exact E. reflexivity.
  - now rewrite E.
Qed.

(** X3. In a reachable state, [restoreWindow] on an open window clears
    [minimized], keeps the geometry, and puts the window strictly above
    every other open window. *)
Theorem restoreWindow_on_top s i w :
  reachable s ->
  getWindow i s = Some w ->
  exists w',
    getWindow i (restoreWindow i s) = Some w'
    /\ minimized w' = false
    /\ (x w', y w', width w', height w') = (x w, y w, width w, height w)
    /\ maximized w' = maximized w
    /\ forall o, In o (windows (restoreWindow i s)) -> o <> w' -> zIndex o < zIndex w'.
Proof.
  intros Hr Hw. apply reachable_well_stacked in Hr. destruct Hr as (Hni & Hnz & Hlt).
  set (f := fun a : WindowState R => with_zIndex (nextZIndex s) (with_minimized false a)).
  exists (f w). split; [|split; [reflexivity|split; [reflexivity|split; [reflexivity|]]]].
  - unfold getWindow, restoreWindow. simpl. now apply (touch_find i f).
  - intros o Hin Hne. unfold restoreWindow in Hin. simpl in Hin.
    apply (touch_In i f) in Hin.
    destruct Hin as [[Hin _]|[c [Hc [Hid ->]]]].
    + unfold below_counter in Hlt. rewrite Forall_forall in Hlt. now apply Hlt.
    + exfalso. apply Hne. f_equal.
      apply find_has_id in Hw. destruct Hw as [Hw Hwi].
      apply (unique_by_id (windows s)); congruence.
Qed.

Lemma openWindow_absent i t (c : R) o s :
  getWindow i s = None ->
  openWindow i t c o s
  = {| windows := windows s ++ [fresh_window i t c o s];
       nextZIndex := nextZIndex s + 1 |}.
Proof. intros Hnone. unfold openWindow. rewrite Hnone. reflexivity. Qed.

(** X4. [openWindow] with an id that has no record appends one record built
    from the arguments, the default geometry staggered by the number of open
    windows and the counter; the [zIndex], [minimized] and [maximized] of the
    options are not read.  Every record that was there is found as before,
    and in a reachable state the new window is strictly above all of them. *)
Theorem openWindow_fresh i t (c : R) o s :
  getWindow i s = None ->
  windows (openWindow i t c o s) = windows s ++ [fresh_window i t c o s]
  /\ nextZIndex (openWindow i t c o s) = nextZIndex s + 1
  /\ getWindow i (openWindow i t c o s) = Some (fresh_window i t c o s)
  /\ (forall j, j <> i -> getWindow j (openWindow i t c o s) = getWindow j s)
  /\ (reachable s ->
      forall old, In old (windows s) -> zIndex old < zIndex (fresh_window i t c o s)).
Proof.
  intros Hnone.
  rewrite (@openWindow_absent i t c o s Hnone). cbn [windows nextZIndex].
  split; [reflexivity|]. split; [reflexivity|].
  split; [unfold getWindow; cbn [windows]; now apply find_app_fresh|].
  split.
  - intros j Hj. unfold getWindow. cbn [windows].
    now apply find_app_other with (i := i).
  - intros Hr old Hold. apply reachable_well_stacked in Hr.
    destruct Hr as (_ & _ & Hlt). unfold below_counter in Hlt.
    rewrite Forall_forall in Hlt. now apply Hlt.
Qed.

(** X5. Closing a window and opening the same id again gives a new record:
    the defaults and the arguments of the second [openWindow], not the old
    geometry or flags, and the next value of the counter as z-index. *)
Theorem reopen_after_close_is_fresh i t (c : R) o s :
  getWindow i (openWindow i t c o (closeWindow i s))
  = Some (fresh_window i t c o (closeWindow i s))
  /\ zIndex (fresh_window i t c o (closeWindow i s)) = nextZIndex s
  /\ nextZIndex (openWindow i t c o (closeWindow i s)) = nextZIndex s + 1.
Proof.
  rewrite (@openWindow_absent i t c o _ (getWindow_closeWindow i s)).
  split; [|split; reflexivity].
  unfold getWindow. cbn [windows].
  apply find_app_fresh; [apply getWindow_closeWindow | reflexivity].
Qed.

(** X6. In every reachable state the ids of the open windows are pairwise
    distinct, so [getWindow] finds the only record with the id. *)
Theorem reachable_ids_unique s :
  reachable s ->
  NoDup (map id (windows s))
  /\ forall i w, In w (windows s) -> id w = i -> getWindow i s = Some w.
Proof.
  intros Hr. apply reachable_well_stacked in Hr. destruct Hr as (Hni & _ & _).
  split; [exact Hni|].
  intros i w Hin Hid. unfold getWindow.
  destruct (find (has_id i) (windows s)) as [w'|] eqn:E.
  - apply find_has_id in E. destruct E as [Hin' Hid'].
    f_equal. apply (unique_by_id (windows s)); congruence.
  - apply (find_none _ _ E) in Hin. apply has_id_true in Hid. congruence.
Qed.

Lemma dispatch_counter a s :
  nextZIndex s <= nextZIndex (dispatch a s) <= nextZIndex s + 1.
Proof.
  destruct a; simpl; try lia.
  - unfold openWindow. destruct (getWindow i s) as [e|]; [|simpl; lia].
    destruct (minimized e); simpl; lia.
  - unfold toggleMaximize. destruct (getWindow i s); simpl; lia.
Qed.

Definition in_range s : Prop :=
  1000 <= nextZIndex s
  /\ Forall (fun w => 1000 <= zIndex w < nextZIndex s) (windows s).

Lemma dispatch_in_range a s : in_range s -> in_range (dispatch a s).
Proof.
  intros [Hn Hall]. split; [pose proof (dispatch_counter a s); lia|].
  assert (Hraise : forall i f,
             (forall w, zIndex (f w) = nextZIndex s) ->
             Forall (fun w => 1000 <= zIndex w < nextZIndex s + 1) (touch i f (windows s))).
  { intros i f Hz. unfold touch. rewrite Forall_forall in *.
    intros o Hin. apply in_map_iff in Hin. destruct Hin as [a0 [<- Hin]].
    destruct (has_id i a0); [rewrite Hz; lia|].
    specialize (Hall a0 Hin). lia. }
  assert (Hkeep : forall i f,
             (forall w, zIndex (f w) = zIndex w) ->
             Forall (fun w => 1000 <= zIndex w < nextZIndex s) (touch i f (windows s))).
  { intros i f Hz. apply Forall_touch; [|exact Hall]. intros w. now rewrite Hz. }
  destruct a; simpl.
  - unfold openWindow. destruct (getWindow i s) as [e|].
    + destruct (minimized e); simpl.
      * now apply (Hraise i (fun w => with_zIndex (nextZIndex s) (with_minimized false w))).
      * now apply (Hraise i (with_zIndex (nextZIndex s))).
    + simpl. apply Forall_app. split.
      * rewrite Forall_forall in *. intros b Hb. specialize (Hall b Hb). lia.
      * repeat constructor; simpl; lia.
  - rewrite Forall_forall in *. intros b Hb. apply filter_In in Hb. apply Hall. tauto.
  - now apply (Hkeep i (with_minimized true)).
  - now apply (Hraise i (fun w => with_zIndex (nextZIndex s) (with_minimized false w))).
  - destruct (getWindow i s) as [e|] eqn:E.
    + rewrite (toggleMaximize_present viewport i s E). simpl.
      apply Hkeep. intros w. unfold toggled. destruct (maximized w); reflexivity.
    + unfold toggleMaximize. rewrite E. exact Hall.
  - now apply (Hraise i (with_zIndex (nextZIndex s))).
  - now apply (Hkeep i (with_position nx ny)).
  - now apply (Hkeep i (with_size nw nh)).
Qed.

(** X7. The counter starts at 1000 and no operation lowers it (each adds 0
    or 1); in a reachable state every z-index in use lies between 1000 and
    the counter, so a z-index is never handed out twice, not even after the
    window that held it was closed. *)
Theorem counter_never_reused s :
  reachable s ->
  (forall a, nextZIndex s <= nextZIndex (dispatch a s) <= nextZIndex s + 1)
  /\ 1000 <= nextZIndex s
  /\ forall w, In w (windows s) -> 1000 <= zIndex w < nextZIndex s.
Proof.
  intros Hr. split; [intros a; apply dispatch_counter|].
  assert (H : in_range s).
  { induction Hr as [|a s _ IH].
    - split; [simpl; lia | constructor].
    - now apply dispatch_in_range. }
  destruct H as [Hn Hall]. split; [exact Hn|].
  rewrite Forall_forall in Hall. exact Hall.
Qed.

Lemma dispatch_snapshot a s :
  Forall (fun w => snapshot_ok w = true) (windows s) ->
  Forall (fun w => snapshot_ok w = true) (windows (dispatch a s)).
Proof.
  intros Hall.
  assert (Hkeep : forall i f,
             (forall w, snapshot_ok (f w) = snapshot_ok w) ->
             Forall (fun w => snapshot_ok w = true) (touch i f (windows s))).
  { intros i f Hf. apply Forall_touch; [|exact Hall]. intros w. now rewrite Hf. }
  destruct a; simpl.
  - unfold openWindow. destruct (getWindow i s) as [e|].
    + destruct (minimized e); simpl.
      * now apply (Hkeep i (fun w => with_zIndex (nextZIndex s) (with_minimized false w))).
      * now apply (Hkeep i (with_zIndex (nextZIndex s))).
    + simpl. apply Forall_app. split; [exact Hall | repeat constructor].
  - rewrite Forall_forall in *. intros b Hb. apply filter_In in Hb. apply Hall. tauto.
  - now apply (Hkeep i (with_minimized true)).
  - now apply (Hkeep i (fun w => with_zIndex (nextZIndex s) (with_minimized false w))).
  - destruct (getWindow i s) as [e|] eqn:E.
    + rewrite (toggleMaximize_present viewport i s E). simpl.
      apply Forall_touch; [|exact Hall]. intros w _.
      unfold toggled. destruct (maximized w); reflexivity.
    + unfold toggleMaximize. rewrite E. exact Hall.
  - now apply (Hkeep i (with_zIndex (nextZIndex s))).
  - now apply (Hkeep i (with_position nx ny)).
  - now apply (Hkeep i (with_size nw nh)).
Qed.

(** X8. In every reachable state a window has its saved geometry exactly
    while it is maximized; so un-maximizing always restores the geometry
    saved by the matching maximize and never falls back to the defaults
    100, 100, 600, 400. *)
Theorem reachable_snapshot_iff_maximized s :
  reachable s ->
  (forall w, In w (windows s) -> snapshot_ok w = true)
  /\ forall v i w,
       getWindow i s = Some w -> maximized w = true ->
       exists w',
         getWindow i (toggleMaximize v i s) = Some w'
         /\ maximized w' = false
         /\ (Some (x w'), Some (y w'), Some (width w'), Some (height w'))
            = (prevX w, prevY w, prevWidth w, prevHeight w).
Proof.
  intros Hr.
  assert (Hall : Forall (fun w => snapshot_ok w = true) (windows s)).
  { induction Hr as [|a s _ IH]; [constructor | now apply dispatch_snapshot]. }
  rewrite Forall_forall in Hall. split; [exact Hall|].
  intros v i w Hw Hmax. exists (toggled v w). split.
  - rewrite (toggleMaximize_present v i s Hw). unfold getWindow. simpl.
    apply touch_find; [apply toggled_id | exact Hw].
  - apply find_has_id in Hw. destruct Hw as [Hin _].
    specialize (Hall w Hin). unfold snapshot_ok in Hall. rewrite Hmax in Hall.
    unfold toggled. rewrite Hmax. simpl.
    destruct (prevX w), (prevY w), (prevWidth w), (prevHeight w);
      try discriminate. split; reflexivity.
Qed.

(** X9. On an id without a record, [closeWindow], [minimizeWindow] and
    [toggleMaximize] return the state as it is, while [bringToFront] and
    [restoreWindow] leave the windows alone but still advance the counter. *)
Theorem absent_id_operations v i s :
  getWindow i s = None ->
  closeWindow i s = s
  /\ minimizeWindow i s = s
  /\ toggleMaximize v i s = s
  /\ bringToFront i s = {| windows := windows s; nextZIndex := nextZIndex s + 1 |}
  /\ restoreWindow i s = {| windows := windows s; nextZIndex := nextZIndex s + 1 |}.
Proof.
  intros Hnone. pose proof (getWindow_none_fresh _ _ Hnone) as Hfresh.
  split; [|split; [|split; [|split]]].
  - unfold closeWindow. rewrite filter_absent by exact Hfresh. apply state_eta.
  - unfold minimizeWindow. fold (touch i (with_minimized true) (windows s)).
    rewrite touch_absent by exact Hfresh. apply state_eta.
  - unfold toggleMaximize. now rewrite Hnone.
  - unfold bringToFront. cbn zeta.
    fold (touch i (with_zIndex (nextZIndex s)) (windows s)).
    now rewrite touch_absent by exact Hfresh.
  - unfold restoreWindow. cbn zeta.
    fold (touch i (fun w => with_zIndex (nextZIndex s) (with_minimized false w)) (windows s)).
    now rewrite touch_absent by exact Hfresh.
Qed.

End Extras.

End WindowManagerExtras.

(** * Further properties of the virtual filesystem *)

From Stdlib Require Import Permutation Sorted.

Module PathFacts.

Import JsString VFS StringFacts.
Local Open Scope string_scope.

(** [s.endsWith("/")] *)
Fixpoint ends_with_slash (s : string) : bool :=
  match s with
  | EmptyString => false
  | String c EmptyString => is_slash c
  | String _ r => ends_with_slash r
  end.

Lemma trim_trailing_idempotent s : trim_trailing (trim_trailing s) = trim_trailing s.
Proof.
  induction s as [|c s IH]; [reflexivity|].
  cbn [trim_trailing]. cbv zeta.
  destruct (is_slash c && negb (truthy (trim_trailing s))) eqn:E; [reflexivity|].
  cbn [trim_trailing]. cbv zeta. rewrite IH, E. reflexivity.
Qed.

Lemma trim_trailing_end s : ends_with_slash (trim_trailing s) = false.
Proof.
  induction s as [|c s IH]; [reflexivity|].
  cbn [trim_trailing]. cbv zeta.
  destruct (is_slash c && negb (truthy (trim_trailing s))) eqn:E; [reflexivity|].
  destruct (trim_trailing s) as [|d r] eqn:T.
  - simpl in *. now rewrite andb_true_r in E.
  - exact IH.
Qed.

Lemma trim_trailing_slash s : trim_trailing (s ++ "/") = trim_trailing s.
Proof.
  induction s as [|c s IH]; [reflexivity|].
  change (String c s ++ "/") with (String c (s ++ "/")).
  cbn [trim_trailing]. now rewrite IH.
Qed.

Lemma trim_both_slash s :
  trim_trailing (trim_leading (s ++ "/")) = trim_trailing (trim_leading s).
Proof.
  induction s as [|c s IH]; [reflexivity|].
  change (String c s ++ "/") with (String c (s ++ "/")).
  cbn [trim_leading]. destruct (is_slash c); [exact IH|].
  apply (trim_trailing_slash (String c s)).
Qed.

Lemma normalizePath_trim p : normalizePath p = trim_trailing (trim_leading p).
Proof. unfold normalizePath. destruct p; reflexivity. Qed.

Lemma split_slash_cons s : exists h t, split_slash s = h :: t.
Proof.
  induction s as [|c s [h [t IH]]]; simpl; [eauto|].
  destruct (is_slash c); [eauto|]. rewrite IH. eauto.
Qed.

Lemma split_slash_append a b :
  split_slash (a ++ "/" ++ b) = (split_slash a ++ split_slash b)%list.
Proof.
  induction a as [|c a IH]; [reflexivity|].
  change (String c a ++ "/" ++ b) with (String c (a ++ "/" ++ b)).
  cbn [split_slash]. rewrite IH.
  destruct (is_slash c); [reflexivity|].
  destruct (split_slash_cons a) as [h [t ->]]. reflexivity.
Qed.

Lemma split_slash_leaf s : includes_slash s = false -> split_slash s = [s].
Proof.
  induction s as [|c s IH]; simpl; [reflexivity|].
  intros H. apply orb_false_iff in H. destruct H as [-> Hs].
  now rewrite (IH Hs).
Qed.

Lemma set_last_snoc v l old : set_last v (l ++ [old])%list = (l ++ [v])%list.
Proof.
  induction l as [|h l IH]; [reflexivity|].
  cbn [app set_last]. rewrite IH.
  destruct l; reflexivity.
Qed.

Lemma join_slash_head c h t : join_slash (String c h :: t) = String c (join_slash (h :: t)).
Proof. unfold join_slash. destruct t; reflexivity. Qed.

Lemma join_slash_snoc h t v :
  join_slash ((h :: t) ++ [v])%list = join_slash (h :: t) ++ "/" ++ v.
Proof.
  unfold join_slash. revert h. induction t as [|k t IH]; intros h; [reflexivity|].
  change (concat "/" ((h :: k :: t) ++ [v])%list)
    with (h ++ "/" ++ concat "/" ((k :: t) ++ [v])%list).
  rewrite IH.
  change (concat "/" (h :: k :: t)) with (h ++ "/" ++ concat "/" (k :: t)).
  now rewrite !append_assoc.
Qed.

(** [split] then [join] on the separator gives the string back. *)
Lemma join_split s : join_slash (split_slash s) = s.
Proof.
  induction s as [|c s IH]; [reflexivity|].
  cbn [split_slash]. destruct (is_slash c) eqn:E.
  - destruct (split_slash_cons s) as [h [t Hs]]. rewrite Hs in *.
    apply Ascii.eqb_eq in E. subst c.
    change (join_slash ("" :: h :: t)) with ("/" ++ join_slash (h :: t)).
    now rewrite IH.
  - destruct (split_slash_cons s) as [h [t Hs]]. rewrite Hs in *.
    now rewrite join_slash_head, IH.
Qed.

Lemma renameDest_nested parent leaf newName :
  includes_slash leaf = false ->
  renameDest (parent ++ "/" ++ leaf) newName = parent ++ "/" ++ newName.
Proof.
  intros Hleaf. unfold renameDest.
  rewrite split_slash_append, (split_slash_leaf _ Hleaf), set_last_snoc.
  destruct (split_slash_cons parent) as [h [t Hs]].
  rewrite Hs, join_slash_snoc, <- Hs, join_split. reflexivity.
Qed.

Lemma renameDest_top leaf newName :
  includes_slash leaf = false -> renameDest leaf newName = newName.
Proof.
  intros Hleaf. unfold renameDest. now rewrite (split_slash_leaf _ Hleaf).
Qed.

(** X10. [normalizePath] is idempotent, its result neither starts nor ends
    with the separator, and one more separator in front of or behind the
    argument does not change the result. *)
Theorem normalizePath_canonical p :
  normalizePath (normalizePath p) = normalizePath p
  /\ startsWith (normalizePath p) "/" = false
  /\ ends_with_slash (normalizePath p) = false
  /\ normalizePath ("/" ++ p) = normalizePath p
  /\ normalizePath (p ++ "/") = normalizePath p.
Proof.
  rewrite !normalizePath_trim.
  assert (Hhead : match trim_trailing (trim_leading p) with
                  | EmptyString => True
                  | String ch _ => is_slash ch = false
                  end)
    by apply trim_trailing_head, trim_leading_head.
  split; [|split; [|split; [|split]]].
  - destruct (trim_trailing (trim_leading p)) as [|c r] eqn:E; [reflexivity|].
    rewrite (@trim_leading_fixed _ _ Hhead), <- E. apply trim_trailing_idempotent.
  - destruct (trim_trailing (trim_leading p)) as [|c r]; [reflexivity|].
    simpl. unfold is_slash in Hhead. now rewrite Hhead.
  - apply trim_trailing_end.
  - reflexivity.
  - apply trim_both_slash.
Qed.

End PathFacts.

Module FileSystemExtras.

Import JsString JsMap VFS StringFacts MapFacts FileSystemFacts PathFacts.
Local Open Scope string_scope.

Implicit Types (files : Store) (k root dest suffix : string).

(** *** More on [Map] updates *)

Lemma map_set_absent (V : Type) k (v : V) (m : JsMap.t V) :
  map_has k m = false -> map_set k v m = (m ++ [(k, v)])%list.
Proof.
  unfold map_has. induction m as [|kv m IH]; simpl; [reflexivity|].
  intros H. apply orb_false_iff in H. destruct H as [-> Hm].
  now rewrite (IH Hm).
Qed.

Lemma map_set_Forall (V : Type) (P : string * V -> Prop) k (v : V) (m : JsMap.t V) :
  P (k, v) -> Forall P m -> Forall P (map_set k v m).
Proof.
  intros Hv. induction m as [|kv m IH]; simpl; intros H.
  - now constructor.
  - inversion H as [|? ? Hkv Hm]; subst.
    destruct (fst kv =? k); constructor; auto.
Qed.

Lemma map_delete_Forall (V : Type) (P : string * V -> Prop) k (m : JsMap.t V) :
  Forall P m -> Forall P (map_delete k m).
Proof.
  intros H. unfold map_delete. rewrite Forall_forall in *.
  intros kv Hin. apply filter_In in Hin. apply H. tauto.
Qed.

Lemma delete_all_Forall (V A : Type) (P : string * V -> Prop) (key : A -> string)
    (plan : Datatypes.list A) (m : JsMap.t V) :
  Forall P m -> Forall P (fold_left (fun acc r => map_delete (key r) acc) plan m).
Proof.
  revert m. induction plan as [|r plan IH]; intros m H; simpl; [exact H|].
  now apply IH, map_delete_Forall.
Qed.

Lemma set_all_Forall (V A : Type) (P : string * V -> Prop) (key : A -> string)
    (value : A -> V) (plan : Datatypes.list A) (m : JsMap.t V) :
  (forall r, In r plan -> P (key r, value r)) ->
  Forall P m ->
  Forall P (fold_left (fun acc r => map_set (key r) (value r) acc) plan m).
Proof.
  revert m. induction plan as [|r plan IH]; intros m Hplan H; simpl; [exact H|].
  apply IH; [intros; apply Hplan; now right|].
  apply map_set_Forall; [apply Hplan; now left | exact H].
Qed.

(** *** Folder entries *)

(** X11. [createFolder] on a free path returns normally: it appends a
    folder entry with empty content, size 0 and both timestamps set to the
    current time, and changes no other key.  The same call repeated then
    throws. *)
Theorem createFolder_fresh files folderName parentFolder now :
  map_has (childPath folderName parentFolder) files = false ->
  let k := childPath folderName parentFolder in
  let entry := mkFile folderName k "" 0 now now true in
  createFolder folderName parentFolder now files = Return (files ++ [(k, entry)])%list
  /\ map_get k (files ++ [(k, entry)])%list = Some entry
  /\ (forall k', k' <> k -> map_get k' (files ++ [(k, entry)])%list = map_get k' files)
  /\ forall later,
       createFolder folderName parentFolder later (files ++ [(k, entry)])%list
       = Throw "Folder already exists".
Proof.
  intros Hfree k entry.
  assert (Hset : map_set k entry files = (files ++ [(k, entry)])%list)
    by now apply map_set_absent.
  subst k entry. split; [|split; [|split]].
  - unfold createFolder. rewrite Hfree. now rewrite Hset.
  - rewrite <- Hset. apply get_set_same.
  - intros k' Hk. rewrite <- Hset. now apply get_set_other.
  - intros later. unfold createFolder.
    rewrite <- Hset, map_has_set, String.eqb_refl. reflexivity.
Qed.

(** *** Single files *)

(** X12. [deleteFile] on the path of a file entry removes that entry only:
    every other key, keys below the file's path included, keeps its entry. *)
Theorem deleteFile_single_file files p f e :
  normalizePath p = f ->
  f <> "" ->
  map_get f files = Some e ->
  isFolder e = false ->
  deleteFile p files = (map_delete f files, true)
  /\ map_get f (map_delete f files) = None
  /\ forall k, k <> f -> map_get k (map_delete f files) = map_get k files.
Proof.
  intros Hp Hf Hget Hfile. split; [|split].
  - unfold deleteFile. rewrite Hp, map_has_get, Hget.
    apply truthy_true in Hf. now rewrite Hf, Hfile.
  - now rewrite get_delete, String.eqb_refl.
  - intros k Hk. rewrite get_delete.
    assert ((f =? k) = false) as -> by (apply String.eqb_neq; congruence).
    reflexivity.
Qed.

(** X13. Whatever the store and the path: when [deleteFile] returns [true]
    no entry is left at the normalised path; when it returns [false] the
    store is the one it was given; and in either case every key has the entry
    it had or none. *)
Theorem deleteFile_outcome files p :
  (snd (deleteFile p files) = true -> exists_ p (fst (deleteFile p files)) = false)
  /\ (snd (deleteFile p files) = false -> fst (deleteFile p files) = files)
  /\ forall k,
       map_get k (fst (deleteFile p files)) = map_get k files
       \/ map_get k (fst (deleteFile p files)) = None.
Proof.
  assert (Hshape :
            deleteFile p files = (files, false)
            \/ (snd (deleteFile p files) = true
                /\ exists plan : Datatypes.list string,
                    fst (deleteFile p files)
                    = fold_left (fun m q => map_delete q m) plan files
                    /\ (map_has (normalizePath p) files = true ->
                        In (normalizePath p) plan))).
  { unfold deleteFile.
    destruct (map_has (normalizePath p) files) eqn:Hhas.
    - rewrite map_has_get in Hhas.
      destruct (map_get (normalizePath p) files) as [e|] eqn:Hget; [|discriminate].
      destruct (negb (truthy (normalizePath p))); [now left|].
      right. destruct (isFolder e); simpl.
      + split; [reflexivity|]. eexists. split; [reflexivity|].
        intros _. apply filter_In. split.
        * apply map_get_In in Hget. unfold keys. apply in_map_iff.
          exists (normalizePath p, e). auto.
        * apply in_subtree_spec. now left.
      + split; [reflexivity|]. exists [normalizePath p]. simpl. auto.
    - destruct (scan p (normalizePath p) files) as [[actualPath file]|]; [|now left].
      destruct (negb (truthy actualPath)); [now left|].
      right. destruct (isFolder file); simpl.
      + split; [reflexivity|]. eexists. split; [reflexivity | discriminate].
      + split; [reflexivity|]. exists [actualPath]. simpl. split; [reflexivity | discriminate]. }
  destruct Hshape as [Hfail|[Hok [plan [Hplan Hin]]]].
  - rewrite Hfail. simpl. split; [discriminate|]. split; [reflexivity|]. now left.
  - rewrite Hok, Hplan. split; [|split; [discriminate|]].
    + intros _. unfold exists_. rewrite map_has_get.
      rewrite (get_delete_all (fun q : string => q)).
      destruct (existsb _ plan) eqn:E; [reflexivity|].
      destruct (map_get (normalizePath p) files) eqn:G; [|reflexivity].
      exfalso. assert (Hhas : map_has (normalizePath p) files = true)
        by (rewrite map_has_get, G; reflexivity).
      apply Hin in Hhas.
      assert (existsb (fun q => q =? normalizePath p) plan = true); [|congruence].
      apply existsb_exists. exists (normalizePath p). split; [exact Hhas|].
      apply String.eqb_refl.
    + intros k. rewrite (get_delete_all (fun q : string => q)).
      destruct (existsb _ plan); [now right | now left].
Qed.

(** X14. A successful [moveFile] of a file entry stores the same record,
    with its [path] updated, under the target folder and the file's [name];
    the source key is vacated and every other key keeps its entry. *)
Theorem moveFile_single_file files sourcePath targetFolder src :
  map_get (normalizePath sourcePath) files = Some src ->
  isFolder src = false ->
  map_has (moveDest targetFolder src) files = false ->
  let s := normalizePath sourcePath in
  let dest := moveDest targetFolder src in
  snd (moveFile sourcePath targetFolder files) = true
  /\ map_get dest (fst (moveFile sourcePath targetFolder files))
     = Some (with_path dest src)
  /\ map_get s (fst (moveFile sourcePath targetFolder files)) = None
  /\ forall k, k <> s -> k <> dest ->
       map_get k (fst (moveFile sourcePath targetFolder files)) = map_get k files.
Proof.
  intros Hget Hfile Hfree s dest.
  assert (Hne : s <> dest).
  { intros E. subst s dest. rewrite map_has_get, <- E, Hget in Hfree. discriminate. }
  subst s dest. unfold moveFile. rewrite Hget. cbv zeta. rewrite Hfree, Hfile.
  cbn [fst snd].
  split; [reflexivity|]. split; [apply get_set_same|]. split.
  - rewrite get_set_other by exact Hne. now rewrite get_delete, String.eqb_refl.
  - intros k Hks Hkd. rewrite get_set_other by exact Hkd. rewrite get_delete.
    assert ((normalizePath sourcePath =? k) = false) as ->
      by (apply String.eqb_neq; congruence).
    reflexivity.
Qed.

(** X15. A successful [renameFile] of a file entry stores the same record,
    with [path] and [name] updated, under the path with its last segment
    replaced; the old key is vacated and every other key keeps its entry. *)
Theorem renameFile_single_file files p newName e :
  map_get (normalizePath p) files = Some e ->
  isFolder e = false ->
  map_has (renameDest (normalizePath p) newName) files = false ->
  let s := normalizePath p in
  let dest := renameDest (normalizePath p) newName in
  snd (renameFile p newName files) = true
  /\ map_get dest (fst (renameFile p newName files))
     = Some (with_path_name dest newName e)
  /\ map_get s (fst (renameFile p newName files)) = None
  /\ forall k, k <> s -> k <> dest ->
       map_get k (fst (renameFile p newName files)) = map_get k files.
Proof.
  intros Hget Hfile Hfree s dest.
  assert (Hne : s <> dest).
  { intros E. subst s dest. rewrite map_has_get, <- E, Hget in Hfree. discriminate. }
  subst s dest. unfold renameFile. rewrite Hget. cbv zeta. rewrite Hfree, Hfile.
  cbn [fst snd].
  split; [reflexivity|]. split; [apply get_set_same|]. split.
  - rewrite get_set_other by exact Hne. now rewrite get_delete, String.eqb_refl.
  - intros k Hks Hkd. rewrite get_set_other by exact Hkd. rewrite get_delete.
    assert ((normalizePath p =? k) = false) as ->
      by (apply String.eqb_neq; congruence).
    reflexivity.
Qed.

(** X16. The new path computed by [renameFile] keeps the parent folder: for
    a leaf without separator, [parent/leaf] becomes [parent/newName] and a
    top-level [leaf] becomes [newName].  Renaming an entry to the name it
    has is refused: the new path is its own, which exists. *)
Theorem renameFile_keeps_parent parent leaf newName :
  includes_slash leaf = false ->
  renameDest (parent ++ "/" ++ leaf) newName = parent ++ "/" ++ newName
  /\ renameDest leaf newName = newName
  /\ forall files p e,
       (normalizePath p = parent ++ "/" ++ leaf \/ normalizePath p = leaf) ->
       map_get (normalizePath p) files = Some e ->
       renameFile p leaf files = (files, false).
Proof.
  intros Hleaf.
  split; [now apply renameDest_nested|]. split; [now apply renameDest_top|].
  intros files p e Hp Hget. unfold renameFile. rewrite Hget.
  assert (Hdest : renameDest (normalizePath p) leaf = normalizePath p).
  { destruct Hp as [->| ->];
      [now apply renameDest_nested | now apply renameDest_top]. }
  rewrite Hdest, map_has_get, Hget. reflexivity.
Qed.

(** *** Folders: the root of the subtree and the keys outside it *)

Section RekeyingFrame.
Variable rewrite : Rekey -> FileMetadata.

Lemma rekeyed_root root dest files src :
  distinct_keys files = true ->
  map_get root files = Some src ->
  map_get (root ++ "/") files = None ->
  map_get dest (rekeyed rewrite root dest files) = Some (rewrite (mkRekey root dest src)).
Proof.
  intros Hd Hget Hedge. unfold rekeyed.
  apply (get_set_all_hit newPath rewrite).
  - intros r Hin Hnew. f_equal.
    apply collect_In in Hin. destruct Hin as [[k m] (Hin & Hsub & ->)].
    cbn [fst snd newPath] in *. apply in_subtree_spec in Hsub.
    apply (distinct_keys_get _ _ _ Hd) in Hin.
    destruct Hsub as [->|[suffix ->]].
    + rewrite rebase_root. congruence.
    + exfalso. rewrite rebase_below in Hnew. destruct suffix as [|c suffix].
      * simpl in Hin. congruence.
      * cbn [truthy] in Hnew. now apply append_grows in Hnew.
  - right. exists (mkRekey root dest src). split; [|reflexivity].
    apply collect_In. exists (root, src). cbn [fst snd].
    split; [now apply map_get_In|].
    split; [apply in_subtree_spec; now left|].
    now rewrite rebase_root.
Qed.

Lemma rekeyed_outside root dest files k :
  in_subtree root k = false ->
  in_subtree dest k = false ->
  map_get k (rekeyed rewrite root dest files) = map_get k files.
Proof.
  intros Hroot Hdest. unfold rekeyed.
  rewrite (get_set_all_miss newPath rewrite).
  - rewrite (get_delete_all oldPath).
    destruct (existsb _ _) eqn:E; [|reflexivity].
    apply existsb_exists in E. destruct E as [r [Hr Hk]].
    apply String.eqb_eq in Hk. apply collect_In in Hr.
    destruct Hr as [kv (_ & Hsub & ->)]. simpl in Hk. congruence.
  - intros r Hr Hk. apply collect_In in Hr. destruct Hr as [kv (_ & Hsub & ->)].
    simpl in Hk. apply (rebase_in_dest root dest) in Hsub. congruence.
Qed.

End RekeyingFrame.

(** X17. A successful [moveFile] or [renameFile] of a folder at [s] stores
    the folder's own record at the new path (with [path], and for a rename
    [name], updated), provided no entry is keyed [s/]; and every key that
    lies neither under [s] nor under the new path keeps its entry. *)
Theorem folder_move_rename_frame files :
  distinct_keys files = true ->
  (forall sourcePath targetFolder src,
      map_get (normalizePath sourcePath) files = Some src ->
      isFolder src = true ->
      snd (moveFile sourcePath targetFolder files) = true ->
      (map_get (normalizePath sourcePath ++ "/") files = None ->
       map_get (moveDest targetFolder src) (fst (moveFile sourcePath targetFolder files))
       = Some (with_path (moveDest targetFolder src) src))
      /\ forall k,
           in_subtree (normalizePath sourcePath) k = false ->
           in_subtree (moveDest targetFolder src) k = false ->
           map_get k (fst (moveFile sourcePath targetFolder files)) = map_get k files)
  /\ (forall p newName src,
        map_get (normalizePath p) files = Some src ->
        isFolder src = true ->
        snd (renameFile p newName files) = true ->
        (map_get (normalizePath p ++ "/") files = None ->
         map_get (renameDest (normalizePath p) newName) (fst (renameFile p newName files))
         = Some (with_path_name (renameDest (normalizePath p) newName) newName src))
        /\ forall k,
             in_subtree (normalizePath p) k = false ->
             in_subtree (renameDest (normalizePath p) newName) k = false ->
             map_get k (fst (renameFile p newName files)) = map_get k files).
Proof.
  intros Hd. split.
  - intros sourcePath targetFolder src Hsrc Hfolder Hok.
    rewrite (@moveFile_folder _ _ _ _ Hsrc Hfolder Hok). split.
    + intros Hedge. now rewrite (@rekeyed_root _ _ _ _ _ Hd Hsrc Hedge).
    + intros k H1 H2. now apply rekeyed_outside.
  - intros p newName src Hsrc Hfolder Hok.
    rewrite (@renameFile_folder _ _ _ _ Hsrc Hfolder Hok). split.
    + intros Hedge. rewrite (@rekeyed_root _ _ _ _ _ Hd Hsrc Hedge).
      cbn [newPath metadata]. now rewrite String.eqb_refl.
    + intros k H1 H2. now apply rekeyed_outside.
Qed.

(** *** Listing *)

Lemma is_direct_child_spec folder k :
  is_direct_child folder k = true <->
  if truthy folder
  then exists leaf, k = folder ++ "/" ++ leaf /\ includes_slash leaf = false
  else includes_slash k = false.
Proof.
  unfold is_direct_child. destruct (truthy folder); cbn [negb]; cbv zeta.
  - rewrite andb_true_iff, negb_true_iff. split.
    + intros [Hpre Hleaf]. pose proof (startsWith_split _ _ Hpre) as Hk.
      rewrite append_assoc in Hk. eauto.
    + intros [leaf [-> Hleaf]]. rewrite <- append_assoc.
      rewrite startsWith_append, substring_from_append. auto.
  - apply negb_true_iff.
Qed.

Section ListingFacts.
Variable localeCompare : string -> string -> Z.

Lemma insert_sorted_perm a l : Permutation (insert_sorted localeCompare a l) (a :: l).
Proof.
  induction l as [|b l IH]; simpl; [reflexivity|].
  destruct (list_order localeCompare a b <=? 0)%Z; [reflexivity|].
  rewrite IH. apply perm_swap.
Qed.

Lemma stable_sort_perm l : Permutation (stable_sort localeCompare l) l.
Proof.
  induction l as [|a l IH]; simpl; [reflexivity|].
  rewrite insert_sorted_perm. now constructor.
Qed.

(** X18. [list(folder)] returns, in some order, exactly the entries whose
    key is a direct child of the normalised folder: [folder/leaf] with no
    separator in [leaf], or for the root a key without separator.  The
    folder itself and deeper descendants are never listed. *)
Theorem list_direct_children folder files :
  Permutation (VFS.list localeCompare folder files)
    (values (filter (fun kv => is_direct_child (normalizePath folder) (fst kv)) files))
  /\ forall e,
       In e (VFS.list localeCompare folder files) <->
       exists k,
         In (k, e) files
         /\ if truthy (normalizePath folder)
            then exists leaf,
                k = normalizePath folder ++ "/" ++ leaf /\ includes_slash leaf = false
            else includes_slash k = false.
Proof.
  assert (Hperm : Permutation (VFS.list localeCompare folder files)
                    (values
                       (filter (fun kv => is_direct_child (normalizePath folder) (fst kv))
                          files)))
    by apply stable_sort_perm.
  split; [exact Hperm|]. intros e. split.
  - intros Hin. apply (Permutation_in _ Hperm) in Hin.
    unfold values in Hin. apply in_map_iff in Hin. destruct Hin as [[k e'] [<- Hin]].
    apply filter_In in Hin. destruct Hin as [Hin Hchild].
    exists k. split; [exact Hin|]. now apply is_direct_child_spec.
  - intros [k [Hin Hchild]]. apply (Permutation_in _ (Permutation_sym Hperm)).
    unfold values. apply in_map_iff. exists (k, e). split; [reflexivity|].
    apply filter_In. split; [exact Hin|]. now apply is_direct_child_spec.
Qed.

Hypothesis localeCompare_total :
  forall a b, (0 < localeCompare a b)%Z -> (localeCompare b a <= 0)%Z.

Lemma list_order_total a b :
  (0 < list_order localeCompare a b)%Z -> (list_order localeCompare b a <= 0)%Z.
Proof.
  unfold list_order. destruct (isFolder a), (isFolder b); simpl; try lia;
    apply localeCompare_total.
Qed.

Lemma insert_sorted_Sorted a l :
  Sorted (fun u v => (list_order localeCompare u v <= 0)%Z) l ->
  Sorted (fun u v => (list_order localeCompare u v <= 0)%Z) (insert_sorted localeCompare a l).
Proof.
  induction l as [|b l IH]; simpl; intros Hs; [repeat constructor|].
  destruct (list_order localeCompare a b <=? 0)%Z eqn:E.
  - apply Z.leb_le in E. constructor; [exact Hs | now constructor].
  - apply Z.leb_gt in E. inversion Hs as [|? ? Hl Hhd]; subst.
    constructor; [now apply IH|].
    destruct l as [|c l]; simpl.
    + constructor. apply list_order_total. lia.
    + destruct (list_order localeCompare a c <=? 0)%Z.
      * constructor. apply list_order_total. lia.
      * inversion Hhd; subst. now constructor.
Qed.

(** X19. When [localeCompare] is a total comparison, each entry of the
    listing and the next one are in the order of the comparator (folders
    before files, then by name), and no file comes before a folder anywhere
    in the listing. *)
Theorem list_sorted_folders_first folder files :
  Sorted (fun u v => (list_order localeCompare u v <= 0)%Z)
    (VFS.list localeCompare folder files)
  /\ StronglySorted (fun u v => isFolder v = true -> isFolder u = true)
       (VFS.list localeCompare folder files).
Proof.
  assert (Hs : Sorted (fun u v => (list_order localeCompare u v <= 0)%Z)
                 (VFS.list localeCompare folder files)).
  { unfold VFS.list, stable_sort.
    induction (values _) as [|a l IH]; simpl; [constructor|].
    now apply insert_sorted_Sorted. }
  split; [exact Hs|].
  apply Sorted_StronglySorted; [intros u v w Huv Hvw Hw; auto|].
  induction Hs as [|a l Hl IH Hhd]; constructor; [exact IH|].
  destruct Hhd as [|b l Hab]; constructor.
  intros Hb. unfold list_order in Hab. rewrite Hb in Hab.
  destruct (isFolder a); [reflexivity | simpl in Hab; lia].
Qed.

End ListingFacts.

(** *** Records and their keys *)

(** An entry is stored under its own [path]; its [size] is the length of its
    [content]; a folder has no content. *)
Definition entry_ok (kv : string * FileMetadata) : Prop :=
  path (snd kv) = fst kv
  /\ size (snd kv) = Z.of_nat (String.length (content (snd kv)))
  /\ (isFolder (snd kv) = true -> content (snd kv) = "").

Definition consistent files : Prop := Forall entry_ok files.

Lemma rekeyed_consistent rewrite root dest files :
  (forall r, path (rewrite r) = newPath r
             /\ content (rewrite r) = content (metadata r)
             /\ size (rewrite r) = size (metadata r)
             /\ isFolder (rewrite r) = isFolder (metadata r)) ->
  consistent files -> consistent (rekeyed rewrite root dest files).
Proof.
  intros Hrw Hc. unfold rekeyed, consistent.
  apply set_all_Forall; [|now apply delete_all_Forall].
  intros r Hr. apply collect_In in Hr. destruct Hr as [kv (Hin & _ & ->)].
  unfold consistent in Hc. rewrite Forall_forall in Hc.
  destruct (Hc kv Hin) as (_ & Hsize & Hfolder).
  destruct (Hrw (mkRekey (fst kv) (rebase root dest (fst kv)) (snd kv)))
    as (Hp & Hcontent & Hs & Hf).
  unfold entry_ok. cbn [fst snd newPath metadata] in *.
  rewrite Hp, Hcontent, Hs, Hf. auto.
Qed.

Lemma deleteFile_consistent p files :
  consistent files -> consistent (fst (deleteFile p files)).
Proof.
  intros Hc. unfold deleteFile.
  destruct (if map_has _ files then _ else _) as [[actualPath file]|]; [|exact Hc].
  destruct (negb (truthy actualPath)); [exact Hc|].
  destruct (isFolder file); simpl.
  - now apply (@delete_all_Forall _ _ entry_ok (fun q : string => q)).
  - now apply map_delete_Forall.
Qed.

Lemma moveFile_consistent sourcePath targetFolder files :
  consistent files -> consistent (fst (moveFile sourcePath targetFolder files)).
Proof.
  intros Hc. unfold moveFile.
  destruct (map_get _ files) as [src|] eqn:Hget; [|exact Hc].
  destruct (map_has _ files); [exact Hc|].
  destruct (isFolder src); simpl.
  - apply (rekeyed_consistent (fun r => with_path (newPath r) (metadata r)));
      [intros r; simpl; auto | exact Hc].
  - apply map_set_Forall; [|now apply map_delete_Forall].
    apply map_get_In in Hget. unfold consistent in Hc. rewrite Forall_forall in Hc.
    destruct (Hc _ Hget) as (_ & Hs & Hf). unfold entry_ok. simpl in *. auto.
Qed.

Lemma renameFile_consistent p newName files :
  consistent files -> consistent (fst (renameFile p newName files)).
Proof.
  intros Hc. unfold renameFile.
  destruct (map_get _ files) as [src|] eqn:Hget; [|exact Hc].
  destruct (map_has _ files); [exact Hc|].
  destruct (isFolder src); simpl.
  - apply (rekeyed_consistent
             (fun r => with_path_name (newPath r)
                         (if newPath r =? renameDest (normalizePath p) newName
                          then newName else name (metadata r))
                         (metadata r)));
      [intros r; simpl; auto | exact Hc].
  - apply map_set_Forall; [|now apply map_delete_Forall].
    apply map_get_In in Hget. unfold consistent in Hc. rewrite Forall_forall in Hc.
    destruct (Hc _ Hget) as (_ & Hs & Hf). unfold entry_ok. simpl in *. auto.
Qed.

(** X20. Every operation of the filesystem keeps the store consistent:
    each entry stays stored under its own [path], with [size] the length of
    its [content] and no content in folders, whatever the host accepts. *)
Theorem perform_consistent accepts c files files' result :
  consistent files ->
  perform accepts c files = (files', Returned result) ->
  consistent files'.
Proof.
  intros Hc.
  destruct c as [filename text folder now | folderName parentFolder now | p | p
                | sourcePath targetFolder | p newName | p | folder cmp | | ];
    simpl; try (intros [= <- _]; exact Hc).
  - intros H. apply setStorage_cases in H.
    destruct H as [(_ & -> & _)|(_ & _ & [=])].
    apply map_set_Forall; [|exact Hc].
    unfold entry_ok. simpl. repeat split. discriminate.
  - unfold createFolder. destruct (map_has _ files); [discriminate|].
    intros H. apply setStorage_cases in H.
    destruct H as [(_ & -> & _)|(_ & _ & [=])].
    apply map_set_Forall; [|exact Hc].
    unfold entry_ok. simpl. auto.
  - destruct (snd (deleteFile p files)).
    + intros H. apply setStorage_cases in H.
      destruct H as [(_ & -> & _)|(_ & _ & [=])]. now apply deleteFile_consistent.
    + intros [= <- _]. now apply deleteFile_consistent.
  - destruct (snd (moveFile sourcePath targetFolder files)).
    + intros H. apply setStorage_cases in H.
      destruct H as [(_ & -> & _)|(_ & _ & [=])]. now apply moveFile_consistent.
    + intros [= <- _]. now apply moveFile_consistent.
  - destruct (snd (renameFile p newName files)).
    + intros H. apply setStorage_cases in H.
      destruct H as [(_ & -> & _)|(_ & _ & [=])]. now apply renameFile_consistent.
    + intros [= <- _]. now apply renameFile_consistent.
  - intros [= <- _]. constructor.
Qed.

(** *** Writing twice *)

(** X21. Two [writeFile] calls on a path that was free: the second content
    wins, [modified] and [size] follow the second call, [created] stays the
    time of the first (a value of [Date.now()], so not zero), and the store
    has gained one key, at the end. *)
Theorem writeFile_twice files filename first second folder t1 t2 :
  map_get (childPath filename folder) files = None ->
  t1 <> 0%Z ->
  let k := childPath filename folder in
  let files2 :=
    writeFile filename second folder t2 (writeFile filename first folder t1 files) in
  map_get k files2
  = Some (mkFile filename k second (Z.of_nat (String.length second)) t2 t1 false)
  /\ keys files2 = (keys files ++ [k])%list
  /\ forall k', k' <> k -> map_get k' files2 = map_get k' files.
Proof.
  intros Hfree Ht1 k files2. subst k files2.
  set (k := childPath filename folder) in *.
  set (e1 := mkFile filename k first (Z.of_nat (String.length first)) t1 t1 false).
  assert (Hfresh : map_has k files = false) by (rewrite map_has_get; now rewrite Hfree).
  assert (H1 : writeFile filename first folder t1 files = map_set k e1 files).
  { unfold writeFile. fold k. now rewrite Hfree. }
  rewrite H1. unfold writeFile. fold k. rewrite (get_set_same k e1 files).
  apply Z.eqb_neq in Ht1. cbn [created e1]. rewrite Ht1.
  split; [apply get_set_same|]. split.
  - rewrite (@keys_set_present _ _ _ _ _ (get_set_same k e1 files)).
    rewrite (@map_set_absent _ _ e1 _ Hfresh). unfold keys. rewrite map_app. reflexivity.
  - intros k' Hk. now rewrite !get_set_other by exact Hk.
Qed.

(** *** Stores whose keys are normalised *)

Definition normalized_keys files : Prop :=
  Forall (fun kv => normalizePath (fst kv) = fst kv) files.

Lemma scan_normalized files p :
  normalized_keys files ->
  map_get (normalizePath p) files = None ->
  scan p (normalizePath p) files = None.
Proof.
  intros Hn Hget. unfold scan.
  destruct (find _ files) as [kv|] eqn:E; [|reflexivity].
  exfalso. apply find_some in E. destruct E as [Hin Hmatch].
  unfold normalized_keys in Hn. rewrite Forall_forall in Hn. specialize (Hn kv Hin).
  apply (map_get_absent _ _ Hget). unfold keys. apply in_map_iff. exists kv.
  split; [|exact Hin].
  rewrite !orb_true_iff, !String.eqb_eq in Hmatch.
  destruct Hmatch as [[H|H]|H]; congruence.
Qed.

(** X22. On a store whose keys are all normalised the fallback scans of
    [readFile] and [deleteFile] never find anything: [readFile] returns the
    content exactly when the entry at the normalised path is a file, and
    [deleteFile] succeeds exactly when the normalised path is not empty and
    has an entry. *)
Theorem exact_lookup_on_normalized_store files p :
  normalized_keys files ->
  readFile p files
  = match map_get (normalizePath p) files with
    | Some f => if isFolder f then None else Some (content f)
    | None => None
    end
  /\ snd (deleteFile p files)
     = truthy (normalizePath p) && exists_ p files.
Proof.
  intros Hn. split.
  - unfold readFile. destruct (map_get (normalizePath p) files) eqn:G; [reflexivity|].
    now rewrite (scan_normalized _ Hn G).
  - unfold deleteFile, exists_. rewrite map_has_get.
    destruct (map_get (normalizePath p) files) as [f|] eqn:G.
    + destruct (truthy (normalizePath p)); simpl; [|reflexivity].
      destruct (isFolder f); reflexivity.
    + rewrite (scan_normalized _ Hn G). now rewrite andb_false_r.
Qed.

(** X23. [writeFile] and [createFolder] with a leaf name under the root or a
    folder path, and [deleteFile] with any argument, keep the keys
    normalised. *)
Theorem normalized_keys_kept files :
  normalized_keys files ->
  (forall filename text folder now,
      is_leaf filename = true -> is_parent folder = true ->
      normalized_keys (writeFile filename text folder now files))
  /\ (forall folderName parentFolder now files',
        is_leaf folderName = true -> is_parent parentFolder = true ->
        createFolder folderName parentFolder now files = Return files' ->
        normalized_keys files')
  /\ forall p, normalized_keys (fst (deleteFile p files)).
Proof.
  intros Hn. split; [|split].
  - intros filename text folder now Hleaf Hparent.
    apply map_set_Forall; [|exact Hn]. now apply childPath_normalized.
  - intros folderName parentFolder now files' Hleaf Hparent.
    unfold createFolder. destruct (map_has _ files); [discriminate|].
    intros [= <-]. apply map_set_Forall; [|exact Hn]. now apply childPath_normalized.
  - intros p. unfold deleteFile.
    destruct (if map_has _ files then _ else _) as [[actualPath file]|]; [|exact Hn].
    destruct (negb (truthy actualPath)); [exact Hn|].
    destruct (isFolder file); simpl.
    + now apply (@delete_all_Forall _ _ _ (fun q : string => q)).
    + now apply map_delete_Forall.
Qed.

End FileSystemExtras.

(** * The event bus

    [EventBus] (class in [src/os/apps/SettingsApp.tsx], exported as [os.bus]):
    a [Map] from event names to arrays of callbacks.  A callback is a function
    object; the code only compares callbacks by identity ([indexOf]) and calls
    them, so the type of callbacks and its identity test are left open.
    [emit] is modelled by the calls it makes, in order, for callbacks that do
    not subscribe or unsubscribe while they run. *)

Module EventBus.

Import JsMap.

Section Bus.
Variable EventCallback : Type.
Variable same : EventCallback -> EventCallback -> bool.

Definition Events : Type := JsMap.t (list EventCallback).

Definition on (event : string) (callback : EventCallback) (events : Events) : Events :=
  let events1 := if negb (map_has event events) then map_set event [] events else events in
  match map_get event events1 with
  | Some callbacks => map_set event (callbacks ++ [callback]) events1
  | None => events1
  end.

(** [callbacks.indexOf(callback)] followed by [splice(index, 1)] when found. *)
Fixpoint remove_first (callback : EventCallback) (callbacks : list EventCallback)
  : list EventCallback :=
  match callbacks with
  | [] => []
  | c :: r => if same c callback then r else c :: remove_first callback r
  end.

Definition off (event : string) (callback : EventCallback) (events : Events) : Events :=
  if negb (map_has event events) then events
  else match map_get event events with
       | Some callbacks => map_set event (remove_first callback callbacks) events
       | None => events
       end.

(** The calls made by [emit(event, ...args)]: each callback with the
    arguments, in array order. *)
Definition emit (Args : Type) (event : string) (args : Args) (events : Events)
  : list (EventCallback * Args) :=
  if negb (map_has event events) then []
  else match map_get event events with
       | Some callbacks => map (fun callback => (callback, args)) callbacks
       | None => []
       end.

(** The callbacks registered for an event. *)
Definition subscribers (event : string) (events : Events) : list EventCallback :=
  match map_get event events with
  | Some callbacks => callbacks
  | None => []
  end.

End Bus.

End EventBus.

Module EventBusFacts.

Import JsMap MapFacts EventBus.
Local Open Scope string_scope.

Section Facts.
Context {EventCallback : Type} (same : EventCallback -> EventCallback -> bool).
Hypothesis same_identity : forall a b, same a b = true <-> a = b.

Implicit Types (events : Events EventCallback) (callback : EventCallback).

Lemma subscribers_on event callback events :
  subscribers event (on event callback events)
  = (subscribers event events ++ [callback])%list.
Proof.
  unfold subscribers, on. rewrite map_has_get.
  destruct (map_get event events) as [l|] eqn:G; simpl.
  - now rewrite G, get_set_same.
  - now rewrite !get_set_same.
Qed.

Lemma subscribers_on_other event event' callback events :
  event' <> event ->
  subscribers event' (on event callback events) = subscribers event' events.
Proof.
  intros Hne. unfold subscribers, on. rewrite map_has_get.
  destruct (map_get event events) as [l|] eqn:G; simpl.
  - now rewrite G, get_set_other.
  - now rewrite get_set_same, !get_set_other.
Qed.

Lemma subscribers_off event callback events :
  subscribers event (off same event callback events)
  = remove_first same callback (subscribers event events).
Proof.
  unfold subscribers, off. rewrite map_has_get.
  destruct (map_get event events) as [l|] eqn:G; simpl.
  - now rewrite get_set_same.
  - now rewrite G.
Qed.

Lemma subscribers_off_other event event' callback events :
  event' <> event ->
  subscribers event' (off same event callback events) = subscribers event' events.
Proof.
  intros Hne. unfold subscribers, off. rewrite map_has_get.
  destruct (map_get event events) as [l|] eqn:G; simpl; [|reflexivity].
  now rewrite get_set_other.
Qed.

Lemma emit_subscribers (Args : Type) event (args : Args) events :
  emit event args events = map (fun callback => (callback, args)) (subscribers event events).
Proof.
  unfold emit, subscribers. rewrite map_has_get.
  destruct (map_get event events); reflexivity.
Qed.

Lemma remove_first_absent callback l :
  ~ In callback l -> remove_first same callback l = l.
Proof.
  induction l as [|c l IH]; simpl; intros Hn; [reflexivity|].
  destruct (same c callback) eqn:E.
  - apply same_identity in E. tauto.
  - rewrite IH; tauto.
Qed.

Lemma remove_first_split callback l1 l2 :
  ~ In callback l1 ->
  remove_first same callback (l1 ++ callback :: l2)%list = (l1 ++ l2)%list.
Proof.
  induction l1 as [|c l1 IH]; simpl; intros Hn.
  - assert (same callback callback = true) as -> by now apply same_identity.
    reflexivity.
  - destruct (same c callback) eqn:E.
    + apply same_identity in E. tauto.
    + rewrite IH; tauto.
Qed.

(** X24. After [on(event, callback)], [emit(event, args)] makes the calls
    it made before, in the same order, followed by one call of the new
    callback with the same arguments; emitting another event is unaffected. *)
Theorem on_appends_subscriber (Args : Type) event callback (args : Args) events :
  emit event args (on event callback events)
  = (emit event args events ++ [(callback, args)])%list
  /\ forall event', event' <> event ->
       emit event' args (on event callback events) = emit event' args events.
Proof.
  split.
  - now rewrite !emit_subscribers, subscribers_on, map_app.
  - intros event' Hne. now rewrite !emit_subscribers, subscribers_on_other.
Qed.

(** X25. [off(event, callback)] removes the earliest registration of the
    callback for that event and nothing else: the callbacks before and after
    it keep their order, a callback that is not registered leaves the
    subscriptions as they are, and other events are unaffected. *)
Theorem off_removes_first_registration event callback events :
  (forall before after,
      subscribers event events = (before ++ callback :: after)%list ->
      ~ In callback before ->
      subscribers event (off same event callback events) = (before ++ after)%list)
  /\ (~ In callback (subscribers event events) ->
      subscribers event (off same event callback events) = subscribers event events)
  /\ forall event', event' <> event ->
       subscribers event' (off same event callback events) = subscribers event' events.
Proof.
  split; [|split].
  - intros before after Hsplit Hn.
    rewrite subscribers_off, Hsplit. now apply remove_first_split.
  - intros Hn. rewrite subscribers_off. now apply remove_first_absent.
  - intros event' Hne. now apply subscribers_off_other.
Qed.

(** X26. For a callback that is not registered for the event: [on] then
    [off] leaves the subscribers as they were; and after two [on] and one
    [off] the callback is still registered once, at the end. *)
Theorem on_off_round_trip event callback events :
  ~ In callback (subscribers event events) ->
  subscribers event (off same event callback (on event callback events))
  = subscribers event events
  /\ subscribers event
       (off same event callback (on event callback (on event callback events)))
     = (subscribers event events ++ [callback])%list.
Proof.
  intros Hn. split.
  - rewrite subscribers_off, subscribers_on.
    rewrite remove_first_split by exact Hn. apply app_nil_r.
  - rewrite subscribers_off, !subscribers_on, <- app_assoc. simpl.
    now rewrite remove_first_split by exact Hn.
Qed.

End Facts.

(** *** Test points *)

Lemma off_removes_first_registration_witness :
  subscribers "theme-changed"
    (off Nat.eqb "theme-changed" 7
       (on "theme-changed" 7 (on "theme-changed" 3 (on "theme-changed" 7 []))))
  = [3; 7].
Proof.
  apply (proj1 (@off_removes_first_registration nat Nat.eqb Nat.eqb_eq "theme-changed" 7
                  (on "theme-changed" 7 (on "theme-changed" 3 (on "theme-changed" 7 []))))
           [] [3; 7]).
  - reflexivity.
  - intros [].
Defined.

Lemma on_off_round_trip_witness :
  subscribers "theme-changed"
    (off Nat.eqb "theme-changed" 7 (on "theme-changed" 7 (on "theme-changed" 3 [])))
  = [3]
  /\ subscribers "theme-changed"
       (off Nat.eqb "theme-changed" 7
          (on "theme-changed" 7 (on "theme-changed" 7 (on "theme-changed" 3 []))))
     = [3; 7].
Proof.
  apply (@on_off_round_trip nat Nat.eqb Nat.eqb_eq "theme-changed" 7
           (on "theme-changed" 3 [])).
  simpl. intros [H|[]]. discriminate H.
Defined.

End EventBusFacts.

(** * Test points for the further properties *)

Module WindowManagerCases.

Import WM WindowManagerFacts WindowManagerExtras Scenario.
Local Open Scope Z_scope.
Local Open Scope string_scope.

Lemma two_windows_reachable : reachable two_windows.
Proof.
  unfold two_windows.
  apply (reachable_dispatch (Open "w2" "Second" tt no_options)).
  apply (reachable_dispatch (Open "w1" "First" tt no_options)).
  apply reachable_initial.
Qed.

Lemma w1_minimized_reachable : reachable w1_minimized.
Proof. apply (reachable_dispatch (@Minimize unit "w1")), two_windows_reachable. Qed.

Lemma w1_maximized_reachable : reachable w1_maximized.
Proof.
  apply (reachable_dispatch (@ToggleMaximize unit (Some (1280, 720)%Z) "w1")),
    two_windows_reachable.
Qed.

Lemma minimizeWindow_only_flag_witness :
  getWindow "w1" (minimizeWindow "w1" two_windows)
  = Some (mkWindow "w1" "First" tt 100 100 600 400 true false 1000 None None None None).
Proof.
  exact (proj1 (@minimizeWindow_only_flag unit "w1" two_windows _ eq_refl)).
Defined.

Lemma restoreWindow_on_top_witness :
  exists w',
    getWindow "w1" (restoreWindow "w1" w1_minimized) = Some w'
    /\ minimized w' = false
    /\ (x w', y w', width w', height w') = (100, 100, 600, 400)
    /\ maximized w' = false
    /\ forall o, In o (windows (restoreWindow "w1" w1_minimized)) ->
                 o <> w' -> zIndex o < zIndex w'.
Proof.
  exact (@restoreWindow_on_top unit w1_minimized "w1"
           (mkWindow "w1" "First" tt 100 100 600 400 true false 1000 None None None None)
           w1_minimized_reachable eq_refl).
Defined.

Lemma openWindow_fresh_witness :
  getWindow "w3" (openWindow "w3" "Third" tt no_options two_windows)
  = Some (mkWindow "w3" "Third" tt 160 160 600 400 false false 1002 None None None None).
Proof.
  destruct (@openWindow_fresh unit "w3" "Third" tt no_options two_windows eq_refl)
    as (_ & _ & Hget & _).
  exact Hget.
Defined.

Lemma reachable_ids_unique_witness : NoDup (map id (windows w1_maximized)).
Proof. exact (proj1 (reachable_ids_unique w1_maximized_reachable)). Defined.

Lemma counter_never_reused_witness :
  1000 <= nextZIndex w1_minimized
  /\ forall w, In w (windows w1_minimized) -> 1000 <= zIndex w < nextZIndex w1_minimized.
Proof. exact (proj2 (counter_never_reused w1_minimized_reachable)). Defined.

Lemma reachable_snapshot_iff_maximized_witness :
  exists w',
    getWindow "w1" (toggleMaximize None "w1" w1_maximized) = Some w'
    /\ maximized w' = false
    /\ (Some (x w'), Some (y w'), Some (width w'), Some (height w'))
       = (Some 100, Some 100, Some 600, Some 400).
Proof.
  exact (proj2 (reachable_snapshot_iff_maximized w1_maximized_reachable) None "w1"
           (mkWindow "w1" "First" tt 0 0 1280 720 false true 1000
              (Some 100) (Some 100) (Some 600) (Some 400))
           eq_refl eq_refl).
Defined.

Lemma absent_id_operations_witness :
  closeWindow "gone" two_windows = two_windows
  /\ minimizeWindow "gone" two_windows = two_windows
  /\ toggleMaximize None "gone" two_windows = two_windows
  /\ bringToFront "gone" two_windows
     = {| windows := windows two_windows; nextZIndex := 1002 + 1 |}
  /\ restoreWindow "gone" two_windows
     = {| windows := windows two_windows; nextZIndex := 1002 + 1 |}.
Proof.
  exact (@absent_id_operations unit None "gone" two_windows eq_refl).
Defined.

End WindowManagerCases.

Module FileSystemCases.

Import JsString JsMap VFS FileSystemFacts PathFacts FileSystemExtras Scenario.
Local Open Scope string_scope.

(** The code units of the two names compared, as a stand-in for a collation. *)
Definition by_code_units (a b : string) : Z :=
  match String.compare a b with
  | Lt => (-1)%Z
  | Eq => 0%Z
  | Gt => 1%Z
  end.

Lemma by_code_units_total a b :
  (0 < by_code_units a b)%Z -> (by_code_units b a <= 0)%Z.
Proof.
  unfold by_code_units. rewrite (String.compare_antisym a b).
  destruct (String.compare b a); simpl; lia.
Qed.

Lemma sample_store_consistent : consistent sample_store.
Proof.
  unfold consistent, entry_ok.
  repeat constructor; simpl; try reflexivity; try discriminate.
Qed.

Lemma sample_store_normalized : normalized_keys sample_store.
Proof. unfold normalized_keys. repeat constructor. Qed.

Lemma createFolder_fresh_witness :
  createFolder "music" "/docs/" 9 sample_store
  = Return (sample_store ++ [("docs/music", mkFile "music" "docs/music" "" 0 9 9 true)])%list.
Proof.
  exact (proj1 (@createFolder_fresh sample_store "music" "/docs/" 9 eq_refl)).
Defined.

Lemma deleteFile_single_file_witness :
  deleteFile "/docs/a.txt" sample_store = (map_delete "docs/a.txt" sample_store, true).
Proof.
  exact (proj1 (@deleteFile_single_file sample_store "/docs/a.txt" "docs/a.txt"
                  (mkFile "a.txt" "docs/a.txt" "hi" 2 2 2 false)
                  eq_refl ltac:(discriminate) eq_refl eq_refl)).
Defined.

Lemma moveFile_single_file_witness :
  snd (moveFile "docs/a.txt" "archive" sample_store) = true
  /\ map_get "archive/a.txt" (fst (moveFile "docs/a.txt" "archive" sample_store))
     = Some (mkFile "a.txt" "archive/a.txt" "hi" 2 2 2 false)
  /\ map_get "docs/a.txt" (fst (moveFile "docs/a.txt" "archive" sample_store)) = None.
Proof.
  destruct (@moveFile_single_file sample_store "docs/a.txt" "archive"
              (mkFile "a.txt" "docs/a.txt" "hi" 2 2 2 false) eq_refl eq_refl eq_refl)
    as (Hok & Hdest & Hsrc & _).
  split; [exact Hok|]. split; [exact Hdest | exact Hsrc].
Defined.

Lemma renameFile_single_file_witness :
  snd (renameFile "docs/a.txt" "z.txt" sample_store) = true
  /\ map_get "docs/z.txt" (fst (renameFile "docs/a.txt" "z.txt" sample_store))
     = Some (mkFile "z.txt" "docs/z.txt" "hi" 2 2 2 false)
  /\ map_get "docs/a.txt" (fst (renameFile "docs/a.txt" "z.txt" sample_store)) = None.
Proof.
  destruct (@renameFile_single_file sample_store "docs/a.txt" "z.txt"
              (mkFile "a.txt" "docs/a.txt" "hi" 2 2 2 false) eq_refl eq_refl eq_refl)
    as (Hok & Hdest & Hsrc & _).
  split; [exact Hok|]. split; [exact Hdest | exact Hsrc].
Defined.

Lemma renameFile_keeps_parent_witness :
  renameDest ("docs/sub" ++ "/" ++ "b.txt") "c.txt" = "docs/sub" ++ "/" ++ "c.txt"
  /\ renameFile "docs/sub/b.txt" "b.txt" sample_store = (sample_store, false).
Proof.
  destruct (@renameFile_keeps_parent "docs/sub" "b.txt" "c.txt" eq_refl)
    as (Hnested & _ & _).
  destruct (@renameFile_keeps_parent "docs/sub" "b.txt" "b.txt" eq_refl)
    as (_ & _ & Hsame).
  split; [exact Hnested|].
  exact (Hsame sample_store "docs/sub/b.txt" _ (or_introl eq_refl) eq_refl).
Defined.

Lemma folder_move_rename_frame_witness :
  map_get "archive/docs" (fst (moveFile "docs" "archive" sample_store))
  = Some (mkFile "docs" "archive/docs" "" 0 1 1 true)
  /\ map_get "top.txt" (fst (moveFile "docs" "archive" sample_store))
     = map_get "top.txt" sample_store
  /\ map_get "papers" (fst (renameFile "docs" "papers" sample_store))
     = Some (mkFile "papers" "papers" "" 0 1 1 true).
Proof.
  destruct (@folder_move_rename_frame sample_store eq_refl) as [Hmove Hrename].
  destruct (Hmove "docs" "archive" (mkFile "docs" "docs" "" 0 1 1 true)
              eq_refl eq_refl eq_refl) as [Hroot Hframe].
  destruct (Hrename "docs" "papers" (mkFile "docs" "docs" "" 0 1 1 true)
              eq_refl eq_refl eq_refl) as [Hroot' _].
  split; [exact (Hroot eq_refl)|].
  split; [exact (Hframe "top.txt" eq_refl eq_refl) | exact (Hroot' eq_refl)].
Defined.

Lemma list_sorted_folders_first_witness :
  Sorted (fun u v => (list_order by_code_units u v <= 0)%Z)
    (VFS.list by_code_units "docs" sample_store)
  /\ StronglySorted (fun u v => isFolder v = true -> isFolder u = true)
       (VFS.list by_code_units "docs" sample_store).
Proof.
  exact (@list_sorted_folders_first by_code_units by_code_units_total "docs" sample_store).
Defined.

Lemma perform_consistent_witness :
  consistent (fst (renameFile "docs" "papers" sample_store)).
Proof.
  exact (@perform_consistent (fun _ => true) (CallRenameFile "docs" "papers") sample_store
           (fst (renameFile "docs" "papers" sample_store)) (Boolean true)
           sample_store_consistent eq_refl).
Defined.

Lemma writeFile_twice_witness :
  map_get "docs/n.txt"
    (writeFile "n.txt" "second" "docs" 8 (writeFile "n.txt" "first" "docs" 7 sample_store))
  = Some (mkFile "n.txt" "docs/n.txt" "second" 6 8 7 false).
Proof.
  exact (proj1 (@writeFile_twice sample_store "n.txt" "first" "second" "docs" 7 8
                  eq_refl ltac:(discriminate))).
Defined.

Lemma exact_lookup_on_normalized_store_witness :
  readFile "/docs/a.txt/" sample_store = Some "hi"
  /\ snd (deleteFile "/nowhere/" sample_store) = false.
Proof.
  split.
  - exact (proj1 (@exact_lookup_on_normalized_store sample_store "/docs/a.txt/"
                    sample_store_normalized)).
  - exact (proj2 (@exact_lookup_on_normalized_store sample_store "/nowhere/"
                    sample_store_normalized)).
Defined.

Lemma normalized_keys_kept_witness :
  normalized_keys (writeFile "n.txt" "first" "/docs/" 7 sample_store)
  /\ normalized_keys (fst (deleteFile "docs" sample_store)).
Proof.
  destruct (@normalized_keys_kept sample_store sample_store_normalized)
    as (Hwrite & _ & Hdelete).
  split; [exact (Hwrite "n.txt" "first" "/docs/" 7%Z eq_refl eq_refl) | exact (Hdelete "docs")].
Defined.

End FileSystemCases.

(** * There and back *)

Module RoundTrips.

Import JsString JsMap VFS StringFacts MapFacts FileSystemFacts PathFacts FileSystemExtras.
Local Open Scope string_scope.

Lemma with_path_back s dest src : path src = s -> with_path s (with_path dest src) = src.
Proof. intros <-. destruct src; reflexivity. Qed.

Lemma with_path_name_back s leaf dest newName src :
  path src = s -> name src = leaf ->
  with_path_name s leaf (with_path_name dest newName src) = src.
Proof. intros <- <-. destruct src; reflexivity. Qed.

Lemma moved_lookup (V : Type) (s dest k : string) (v : V) (m : JsMap.t V) :
  map_get k (map_set dest v (map_delete s m))
  = if k =? dest then Some v else if k =? s then None else map_get k m.
Proof.
  destruct (String.eqb_spec k dest) as [->|Hd]; [apply get_set_same|].
  rewrite get_set_other by exact Hd. rewrite get_delete, (String.eqb_sym s k).
  reflexivity.
Qed.

Lemma moveFile_file_store files sourcePath targetFolder src :
  map_get (normalizePath sourcePath) files = Some src ->
  isFolder src = false ->
  map_has (moveDest targetFolder src) files = false ->
  moveFile sourcePath targetFolder files
  = (map_set (moveDest targetFolder src) (with_path (moveDest targetFolder src) src)
       (map_delete (normalizePath sourcePath) files), true).
Proof. intros Hget Hfile Hfree. unfold moveFile. now rewrite Hget, Hfree, Hfile. Qed.

Lemma renameFile_file_store files p newName src :
  map_get (normalizePath p) files = Some src ->
  isFolder src = false ->
  map_has (renameDest (normalizePath p) newName) files = false ->
  renameFile p newName files
  = (map_set (renameDest (normalizePath p) newName)
       (with_path_name (renameDest (normalizePath p) newName) newName src)
       (map_delete (normalizePath p) files), true).
Proof. intros Hget Hfile Hfree. unfold renameFile. now rewrite Hget, Hfree, Hfile. Qed.

(** Replacing an entry by itself, on a key that was free in between. *)
Lemma there_and_back_lookup (V : Type) (s dest k : string) (v v' : V) (m : JsMap.t V) :
  map_get s m = Some v ->
  map_get dest m = None ->
  map_get k (map_set s v (map_delete dest (map_set dest v' (map_delete s m))))
  = map_get k m.
Proof.
  intros Hs Hd. rewrite !moved_lookup.
  destruct (String.eqb_spec k s) as [->|Hks]; [now rewrite Hs|].
  destruct (String.eqb_spec k dest) as [->|Hkd]; [now rewrite Hd | reflexivity].
Qed.

(** X27. Moving a file entry to another folder and then back to the folder
    it came from gives a store in which every path has the entry it had at
    the start.  [back] is a path that normalises to the key the first move
    produced, [home] the folder the file came from. *)
Theorem moveFile_there_and_back files sourcePath targetFolder back home src :
  map_get (normalizePath sourcePath) files = Some src ->
  isFolder src = false ->
  path src = normalizePath sourcePath ->
  map_has (moveDest targetFolder src) files = false ->
  normalizePath back = moveDest targetFolder src ->
  moveDest home src = normalizePath sourcePath ->
  let files1 := fst (moveFile sourcePath targetFolder files) in
  snd (moveFile back home files1) = true
  /\ forall k, map_get k (fst (moveFile back home files1)) = map_get k files.
Proof.
  intros Hget Hfile Hpath Hfree Hback Hhome files1. subst files1.
  rewrite (@moveFile_file_store files sourcePath targetFolder src Hget Hfile Hfree).
  cbn [fst].
  set (s := normalizePath sourcePath) in *.
  set (dest := moveDest targetFolder src) in *.
  assert (Hd : map_get dest files = None).
  { rewrite map_has_get in Hfree. destruct (map_get dest files); [discriminate Hfree|].
    reflexivity. }
  assert (Hget1 : map_get (normalizePath back)
                    (map_set dest (with_path dest src) (map_delete s files))
                  = Some (with_path dest src))
    by (rewrite Hback; apply get_set_same).
  assert (Hhome1 : moveDest home (with_path dest src) = s) by exact Hhome.
  assert (Hfree1 : map_has (moveDest home (with_path dest src))
                     (map_set dest (with_path dest src) (map_delete s files)) = false).
  { rewrite Hhome1, map_has_get, moved_lookup, String.eqb_refl.
    destruct (String.eqb_spec s dest) as [E|_]; [|reflexivity].
    rewrite E in Hget. congruence. }
  rewrite (@moveFile_file_store _ back home _ Hget1 Hfile Hfree1). cbn [fst snd].
  split; [reflexivity|]. intros k.
  rewrite Hhome1, Hback, (@with_path_back s dest src Hpath).
  now apply there_and_back_lookup.
Qed.

(** X28. Renaming a file entry [parent/leaf] to a new leaf name and then
    back to [leaf] gives a store in which every path has the entry it had at
    the start. *)
Theorem renameFile_there_and_back files p parent leaf newName src :
  normalizePath p = parent ++ "/" ++ leaf ->
  includes_slash leaf = false ->
  includes_slash newName = false ->
  map_get (parent ++ "/" ++ leaf) files = Some src ->
  isFolder src = false ->
  path src = parent ++ "/" ++ leaf ->
  name src = leaf ->
  map_has (parent ++ "/" ++ newName) files = false ->
  normalizePath (parent ++ "/" ++ newName) = parent ++ "/" ++ newName ->
  let files1 := fst (renameFile p newName files) in
  snd (renameFile (parent ++ "/" ++ newName) leaf files1) = true
  /\ forall k,
       map_get k (fst (renameFile (parent ++ "/" ++ newName) leaf files1))
       = map_get k files.
Proof.
  intros Hp Hleaf Hnew Hget Hfile Hpath Hname Hfree Hnorm files1. subst files1.
  set (s := parent ++ "/" ++ leaf) in *.
  set (dest := parent ++ "/" ++ newName) in *.
  assert (Hdest : renameDest (normalizePath p) newName = dest)
    by (rewrite Hp; now apply renameDest_nested).
  assert (Hget0 : map_get (normalizePath p) files = Some src) by now rewrite Hp.
  assert (Hfree0 : map_has (renameDest (normalizePath p) newName) files = false)
    by now rewrite Hdest.
  rewrite (@renameFile_file_store files p newName src Hget0 Hfile Hfree0). cbn [fst].
  rewrite Hdest, Hp.
  assert (Hd : map_get dest files = None).
  { rewrite map_has_get in Hfree. destruct (map_get dest files); [discriminate Hfree|].
    reflexivity. }
  assert (Hdest1 : renameDest (normalizePath dest) leaf = s)
    by (rewrite Hnorm; now apply renameDest_nested).
  assert (Hget1 : map_get (normalizePath dest)
                    (map_set dest (with_path_name dest newName src) (map_delete s files))
                  = Some (with_path_name dest newName src))
    by (rewrite Hnorm; apply get_set_same).
  assert (Hfree1 : map_has (renameDest (normalizePath dest) leaf)
                     (map_set dest (with_path_name dest newName src) (map_delete s files))
                   = false).
  { rewrite Hdest1, map_has_get, moved_lookup, String.eqb_refl.
    destruct (String.eqb_spec s dest) as [E|_]; [|reflexivity].
    rewrite E in Hget. congruence. }
  rewrite (@renameFile_file_store _ dest leaf _ Hget1 Hfile Hfree1). cbn [fst snd].
  split; [reflexivity|]. intros k.
  rewrite Hdest1, Hnorm, (@with_path_name_back s leaf dest newName src Hpath Hname).
  now apply there_and_back_lookup.
Qed.

Import Scenario.

Lemma moveFile_there_and_back_witness :
  snd (moveFile "archive/a.txt" "docs"
         (fst (moveFile "docs/a.txt" "archive" sample_store))) = true
  /\ forall k,
       map_get k (fst (moveFile "archive/a.txt" "docs"
                         (fst (moveFile "docs/a.txt" "archive" sample_store))))
       = map_get k sample_store.
Proof.
  exact (@moveFile_there_and_back sample_store "docs/a.txt" "archive" "archive/a.txt" "docs"
           (mkFile "a.txt" "docs/a.txt" "hi" 2 2 2 false)
           eq_refl eq_refl eq_refl eq_refl eq_refl eq_refl).
Defined.

Lemma renameFile_there_and_back_witness :
  snd (renameFile ("docs" ++ "/" ++ "z.txt") "a.txt"
         (fst (renameFile "docs/a.txt" "z.txt" sample_store))) = true
  /\ forall k,
       map_get k (fst (renameFile ("docs" ++ "/" ++ "z.txt") "a.txt"
                         (fst (renameFile "docs/a.txt" "z.txt" sample_store))))
       = map_get k sample_store.
Proof.
  exact (@renameFile_there_and_back sample_store "docs/a.txt" "docs" "a.txt" "z.txt"
           (mkFile "a.txt" "docs/a.txt" "hi" 2 2 2 false)
           eq_refl eq_refl eq_refl eq_refl eq_refl eq_refl eq_refl eq_refl eq_refl).
Defined.

End RoundTrips.
